(** * jsonmerge: JSON Patch application over fastjson values

    A shallow embedding of [patch.go] (package [jsonmerge]).  The Go code
    mutates [*fastjson.Value] cells in place and shares them freely, so the
    embedding keeps an explicit store of cells addressed by [addr]; a
    [*fastjson.Value] is an [option addr] ([None] is [nil]).

    Layout:
    - [strings], [strconv]: the pieces of the Go standard library used by
      [patch.go] ([strings.Split], [strings.NewReplacer], [strconv.Atoi]);
    - [fastjson]: the value cells and the methods of the JSON library that
      [patch.go] calls;
    - the containers [fastdoc] and [fastarray], [findObject], the operation
      handlers and [ApplyFast];
    - [text]: JSON texts, for [DecodePatch], [Marshal] and [Apply];
    - the notions used in the statements, and the properties. *)

From Stdlib Require Import ZArith List String Ascii Bool Lia.
From stdpp Require Import base option list strings gmap fin_maps.

Local Open Scope string_scope.
Local Open Scope Z_scope.
Local Open Scope list_scope.

(** ** Outcomes of Go calls *)

(** [%w]/[%s]/[%v] arguments of [fmt.Errorf] and the errors of [strconv];
    the text of a message is never inspected by [patch.go], so an error
    is kept as its format string and arguments. *)
Inductive error : Type :=
| Errorf (format : string) (args : list fmtarg)
| NumError (func num : string) (kind : string)
with fmtarg : Type :=
| ArgErr (e : option error)
| ArgStr (s : string)
| ArgInt (n : Z).

(** A Go call either returns normally, returns a non-nil [error], or
    panics (nil dereference, [panic("impl")]). *)
Inductive res (A : Type) : Type :=
| Ok (x : A)
| Err (e : error)
| Panic.
Arguments Ok {A} x.
Arguments Err {A} e.
Arguments Panic {A}.

Definition is_Err {A} (r : res A) : bool :=
  match r with Err _ => true | _ => false end.

(** ** [strings] *)
Module strings.

(** [strings.Split(s, sep)] for a one-byte separator: the pieces of [s]
    between the occurrences of [sep]; never empty. *)
Fixpoint Split (s : string) (sep : ascii) : list string :=
  match s with
  | EmptyString => [EmptyString]
  | String c rest =>
      if Ascii.eqb c sep then EmptyString :: Split rest sep
      else match Split rest sep with
           | piece :: pieces => String c piece :: pieces
           | [] => [String c EmptyString]
           end
  end.

(** [strings.HasPrefix(s, prefix)] *)
Fixpoint HasPrefix (s prefix : string) {struct prefix} : bool :=
  match prefix, s with
  | EmptyString, _ => true
  | String p prefix', String c s' => (Ascii.eqb c p && HasPrefix s' prefix')%bool
  | String _ _, EmptyString => false
  end.

(** A [*strings.Replacer] built from (old, new) pairs. *)
Definition Replacer : Type := list (string * string).

Definition NewReplacer (oldnew : list (string * string)) : Replacer := oldnew.

(** The pair that applies at the head of [s]: comparisons are done in
    argument order.  (Pairs with an empty [old] have a special meaning
    in Go and are skipped here; [patch.go] has none.) *)
Fixpoint lookup (r : Replacer) (s : string) : option (string * string) :=
  match r with
  | [] => None
  | (old, new) :: r' =>
      if (negb (String.eqb old EmptyString) && HasPrefix s old)%bool
      then Some (old, new)
      else lookup r' s
  end.

(** One pass over [s], left to right; [skip] counts the bytes of the
    current match still to be passed over.  Replacement text is never
    scanned again. *)
Fixpoint replace_from (r : Replacer) (skip : nat) (s : string) : string :=
  match s with
  | EmptyString => EmptyString
  | String c rest =>
      match skip with
      | S k => replace_from r k rest
      | O =>
          match lookup r s with
          | Some (old, new) =>
              String.append new (replace_from r (String.length old - 1) rest)
          | None => String c (replace_from r 0 rest)
          end
      end
  end.

Definition Replace (r : Replacer) (s : string) : string := replace_from r 0 s.

End strings.

(** ** [strconv] *)
Module strconv.

(** Go's [int] on a 64-bit platform. *)
Definition MaxInt : Z := 2 ^ 63 - 1.
Definition MinInt : Z := - 2 ^ 63.

Definition digit (c : ascii) : option Z :=
  let n := Z.of_nat (nat_of_ascii c) in
  if ((48 <=? n) && (n <=? 57))%bool then Some (n - 48) else None.

(** [n = n*10 + int(ch)] over the bytes of [s]. *)
Fixpoint digits (s : string) (n : Z) : option Z :=
  match s with
  | EmptyString => Some n
  | String ch rest =>
      match digit ch with
      | Some d => digits rest (n * 10 + d)
      | None => None
      end
  end.

Definition syntaxError (s : string) : error := NumError "Atoi" s "invalid syntax".
Definition rangeError (s : string) : error := NumError "Atoi" s "value out of range".

(** [strconv.Atoi]: an optional sign, then one or more decimal digits;
    the value has to fit [int]. *)
Definition Atoi (s0 : string) : res Z :=
  match s0 with
  | EmptyString => Err (syntaxError s0)
  | String c rest =>
      let neg := Ascii.eqb c "-" in
      let s := if (neg || Ascii.eqb c "+")%bool then rest else s0 in
      match s with
      | EmptyString => Err (syntaxError s0)
      | _ =>
          match digits s 0 with
          | None => Err (syntaxError s0)
          | Some n =>
              let v := if neg then - n else n in
              if ((MinInt <=? v) && (v <=? MaxInt))%bool then Ok v
              else Err (rangeError s0)
          end
      end
  end.

(** Decimal digits of a non-negative number, most significant first
    ([strconv.Itoa] on non-negative arguments). *)
Fixpoint itoa_go (fuel : nat) (n : Z) (acc : string) : string :=
  let acc' := String (ascii_of_nat (Z.to_nat (48 + n mod 10))) acc in
  match fuel with
  | O => acc'
  | S fuel' => if n <? 10 then acc' else itoa_go fuel' (n / 10) acc'
  end.

(** An [int] has at most 19 decimal digits. *)
Definition Itoa (n : Z) : string :=
  if n <? 0 then String "-" (itoa_go 19 (- n) EmptyString)
  else itoa_go 19 n EmptyString.

End strconv.

(** ** [fastjson]: the JSON value cells

    [patch.go] is written against [github.com/valyala/fastjson], which
    [go.mod] replaces by the fork [github.com/lens-vm/fastjson].  The
    library is a dependency and not part of this package; what follows
    models the methods [patch.go] calls.  [Object.Get], [Object.Set],
    [Object.Del], [Value.Get], [Value.Del] and [Value.Type] follow the
    library's documented behaviour.  For the two array updates:
    - [SetArrayItem] follows the note in [fastarray.add]: an index at or
      beyond the current length makes it "a simple append";
    - [InsertArrayItem] (added by the fork) inserts before the element at
      [idx] and, like [SetArrayItem], appends when [idx] is at or beyond
      the current length. *)
Module fastjson.

Inductive Type_ : Set :=
  | TypeNull | TypeObject | TypeArray | TypeString | TypeNumber | TypeTrue | TypeFalse.

#[global] Instance Type_eq_dec : EqDecision Type_.
Proof. solve_decision. Defined.

(** The address of a [Value] cell; [ptr] is a [*Value]. *)
Definition addr : Set := nat.
Bind Scope nat_scope with addr.
Abbreviation ptr := (option addr).

(** [type Object struct { kvs []kv; ... }]: members in insertion order,
    keys unescaped. *)
Abbreviation Object := (list (string * addr)).

(** [type Value struct { o Object; a []*Value; s string; t Type }] *)
Record Value : Set := mkValue {
  v_o : Object;
  v_a : list ptr;
  v_s : string;
  v_t : Type_
}.

(** The shared cells [valueNull], [valueTrue] and [valueFalse]. *)
Definition valueNull : addr := 0%nat.
Definition valueTrue : addr := 1%nat.
Definition valueFalse : addr := 2%nat.

Definition scalar (t : Type_) (s : string) : Value := mkValue [] [] s t.

Definition set_o (x : Value) (o' : Object) : Value :=
  mkValue o' (v_a x) (v_s x) (v_t x).
Definition set_a (x : Value) (a' : list ptr) : Value :=
  mkValue (v_o x) a' (v_s x) (v_t x).

(** [func (o *Object) Get(key string) *Value]: the first member named
    [key], or [nil]. *)
Fixpoint Object_Get (o : Object) (key : string) : ptr :=
  match o with
  | [] => None
  | (k, v) :: rest => if String.eqb k key then Some v else Object_Get rest key
  end.

(** [func (o *Object) Set(key string, value *Value)]: a [nil] value is
    stored as [valueNull]; the first member named [key] is overwritten
    in place, otherwise a new member is appended. *)
Fixpoint Object_set (o : Object) (key : string) (value : addr) : Object :=
  match o with
  | [] => [(key, value)]
  | (k, v) :: rest =>
      if String.eqb k key then (k, value) :: rest
      else (k, v) :: Object_set rest key value
  end.

Definition Object_Set (o : Object) (key : string) (value : ptr) : Object :=
  Object_set o key (default valueNull value).

(** [func (o *Object) Del(key string)]: drops the first member named
    [key], if any. *)
Fixpoint Object_Del (o : Object) (key : string) : Object :=
  match o with
  | [] => []
  | (k, v) :: rest =>
      if String.eqb k key then rest else (k, v) :: Object_Del rest key
  end.

(** The index denoted by [key] in an array of length [len], as
    [Value.Get] and [Value.Del] compute it: [strconv.Atoi] succeeds and
    [0 <= n < len]. *)
Definition index_in (key : string) (len : nat) : option nat :=
  match strconv.Atoi key with
  | Ok n => if ((n <? 0) || (Z.of_nat len <=? n))%bool then None
            else Some (Z.to_nat n)
  | _ => None
  end.

(** [func (v *Value) Get(keys ...string) *Value] with one key, on the
    cell itself. *)
Definition Value_Get (x : Value) (key : string) : ptr :=
  match v_t x with
  | TypeObject => Object_Get (v_o x) key
  | TypeArray =>
      match index_in key (length (v_a x)) with
      | Some n => mjoin (v_a x !! n)
      | None => None
      end
  | _ => None
  end.

(** [func (v *Value) Del(key string)] *)
Definition Value_Del (x : Value) (key : string) : Value :=
  match v_t x with
  | TypeObject => set_o x (Object_Del (v_o x) key)
  | TypeArray =>
      match index_in key (length (v_a x)) with
      | Some n => set_a x (take n (v_a x) ++ drop (S n) (v_a x))
      | None => x
      end
  | _ => x
  end.

(** Modelled from the spec: [func (v *Value) SetArrayItem(idx int,
    value *Value)] of the fork is not under [src/].  "[set(idx, v)]
    replaces the element at [idx]", and by the note in [fastarray.add]
    an index beyond the end "applies a simple append".  ([idx >= 0].) *)
Definition Value_SetArrayItem (x : Value) (idx : Z) (value : ptr) : Value :=
  match v_t x with
  | TypeArray =>
      if Z.of_nat (length (v_a x)) <=? idx then set_a x (v_a x ++ [value])
      else set_a x (<[Z.to_nat idx := value]> (v_a x))
  | _ => x
  end.

(** Modelled from the spec: [func (v *Value) InsertArrayItem(idx int,
    value *Value)] of the fork is not under [src/].  "[add(idx, v)]
    inserts a new element at [idx], shifting subsequent elements right;
    [idx] may equal the current length (append)"; beyond the length it
    is taken to append as [SetArrayItem] does.  ([idx >= 0].) *)
Definition Value_InsertArrayItem (x : Value) (idx : Z) (value : ptr) : Value :=
  match v_t x with
  | TypeArray =>
      if Z.of_nat (length (v_a x)) <=? idx then set_a x (v_a x ++ [value])
      else set_a x (take (Z.to_nat idx) (v_a x) ++ value :: drop (Z.to_nat idx) (v_a x))
  | _ => x
  end.

End fastjson.
Import fastjson.

(** The store of value cells. *)
Abbreviation Heap := (gmap addr Value).

(** A method called through a pointer: reads and in-place updates of the
    cell at [p]. *)
Definition Get (h : Heap) (v : ptr) (key : string) : ptr :=
  x ← v ≫= (h !!.); Value_Get x key.

Definition update (p : addr) (f : Value → Value) (h : Heap) : Heap := alter f p h.

(** ** Calls that read and update the store

    A Go call runs on the store and leaves a store behind in every case:
    an operation that returns an error or panics does not undo what it
    has written. *)
Definition M (A : Type) : Type := Heap → res A * Heap.

Definition ret {A} (x : A) : M A := λ h, (Ok x, h).

Definition bind {A B} (m : M A) (k : A → M B) : M B :=
  λ h, match m h with
       | (Ok x, h') => k x h'
       | (Err e, h') => (Err e, h')
       | (Panic, h') => (Panic, h')
       end.

Definition fail {A} (e : error) : M A := λ h, (Err e, h).
Definition panic {A} : M A := λ h, (Panic, h).
Definition read {A} (f : Heap → A) : M A := λ h, (Ok (f h), h).
Definition modify (f : Heap → Heap) : M unit := λ h, (Ok tt, f h).
Definition lift {A} (r : res A) : M A := λ h, (r, h).

(** [x, err := call()]: the error is handed to the caller as a value. *)
Definition attempt {A} (m : M A) : M (A + error) :=
  λ h, match m h with
       | (Ok x, h') => (Ok (inl x), h')
       | (Err e, h') => (Ok (inr e), h')
       | (Panic, h') => (Panic, h')
       end.

#[global] Instance M_ret : MRet M := @ret.
#[global] Instance M_bind : MBind M := λ A B k m, bind m k.

(** [*p] for a cell pointer that the code dereferences without a check. *)
Definition deref (p : addr) : M Value :=
  λ h, match h !! p with
       | Some x => (Ok x, h)
       | None => (Panic, h)
       end.

(** ** Containers *)

(** The two implementations of [type container interface]; the nil
    interface value is [None : option container].  [fastdoc v] stands for
    [&fastdoc{v: &cell.o}] and [fastarray v] for [&fastarray{v: cell}],
    with [cell] the value at address [v]. *)
Inductive container : Set :=
| fastdoc (v : addr)
| fastarray (v : addr).

Definition fastdoc_get (d : addr) (key : string) : M ptr :=
  x ← deref d;
  match Object_Get (v_o x) key with
  | Some val => ret (Some val)
  | None => fail (Errorf "missing key %v" [ArgStr key])
  end.

Definition fastdoc_set (d : addr) (key : string) (val : ptr) : M unit :=
  modify (update d (λ x, set_o x (Object_Set (v_o x) key val))).

Definition fastdoc_add (d : addr) (key : string) (val : ptr) : M unit :=
  fastdoc_set d key val.

Definition fastdoc_remove (d : addr) (key : string) : M unit :=
  modify (update d (λ x, set_o x (Object_Del (v_o x) key))).

Definition getIndex (key : string) : res Z :=
  match strconv.Atoi key with
  | Ok idx =>
      if idx <? 0 then Err (Errorf "invalid negative index %v" [ArgInt idx])
      else Ok idx
  | Err err => Err err
  | Panic => Panic
  end.

Definition fastarray_set (arr : addr) (key : string) (val : ptr) : M unit :=
  idx ← lift (getIndex key);
  modify (update arr (λ x, Value_SetArrayItem x idx val)).

Definition fastarray_add (arr : addr) (key : string) (val : ptr) : M unit :=
  if String.eqb key "-" then
    modify (update arr (λ x, Value_SetArrayItem x strconv.MaxInt val))
  else
    idx ← lift (getIndex key);
    modify (update arr (λ x, Value_InsertArrayItem x idx val)).

Definition fastarray_get (arr : addr) (key : string) : M ptr :=
  read (λ h, Get h (Some arr) key).

Definition fastarray_remove (arr : addr) (key : string) : M unit :=
  modify (update arr (λ x, Value_Del x key)).

(** Calls through the interface. *)
Definition get (c : container) (key : string) : M ptr :=
  match c with
  | fastdoc d => fastdoc_get d key
  | fastarray arr => fastarray_get arr key
  end.

Definition set (c : container) (key : string) (val : ptr) : M unit :=
  match c with
  | fastdoc d => fastdoc_set d key val
  | fastarray arr => fastarray_set arr key val
  end.

Definition add (c : container) (key : string) (val : ptr) : M unit :=
  match c with
  | fastdoc d => fastdoc_add d key val
  | fastarray arr => fastarray_add arr key val
  end.

Definition remove (c : container) (key : string) : M unit :=
  match c with
  | fastdoc d => fastdoc_remove d key
  | fastarray arr => fastarray_remove arr key
  end.

(** ** Operations *)

(** [type Operation struct { v *fastjson.Object }]: [op_v] is the address
    of the cell whose object it is. *)
Record Operation : Set := mkOperation { op_v : addr }.

Definition Patch : Set := list Operation.

Definition Operation_field (h : Heap) (o : Operation) (key : string) : ptr :=
  x ← h !! op_v o; Object_Get (v_o x) key.

Definition getStringField (h : Heap) (o : Operation) (key : string) : option string :=
  obj ← Operation_field h o key;
  x ← h !! obj;
  if decide (v_t x = TypeString) then Some (v_s x) else None.

Definition Kind (h : Heap) (o : Operation) : string :=
  default "unknown" (getStringField h o "op").

Definition Path (o : Operation) : M string :=
  λ h, match getStringField h o "path" with
       | Some val => (Ok val, h)
       | None => (Err (Errorf "couldn't get path field" []), h)
       end.

Definition From (o : Operation) : M string :=
  λ h, match getStringField h o "from" with
       | Some val => (Ok val, h)
       | None => (Err (Errorf "couldn't get from field" []), h)
       end.

Definition value (h : Heap) (o : Operation) : ptr := Operation_field h o "value".

(** ** Pointer resolution *)

Definition rfc6901Decoder : strings.Replacer :=
  strings.NewReplacer [("~1", "/"); ("~0", "~")].

Definition decodePatchKey (k : string) : string :=
  strings.Replace rfc6901Decoder k.

(** Token decoding as the specification words it: one scan from the
    left in which [~1] gives [/] and [~0] gives [~], and what has been
    produced is not looked at again. *)
Fixpoint decode_scan (s : string) : string :=
  match s with
  | EmptyString => EmptyString
  | String c rest =>
      if Ascii.eqb c "~" then
        match rest with
        | String d rest' =>
            if Ascii.eqb d "1" then String "/" (decode_scan rest')
            else if Ascii.eqb d "0" then String "~" (decode_scan rest')
            else String c (decode_scan rest)
        | EmptyString => String c EmptyString
        end
      else String c (decode_scan rest)
  end.

(** [intoFastType]; [val.Type()] on a nil value panics. *)
Definition intoFastType (val : ptr) : M container :=
  match val with
  | None => panic
  | Some v =>
      x ← deref v;
      match v_t x with
      | TypeArray => ret (fastarray v)
      | TypeObject => ret (fastdoc v)
      | _ => fail (Errorf "invalid json type for container: %v" [])
      end
  end.

(** The [for _, part := range parts] loop of [findObject]; a [return]
    inside the loop ends the function with a nil container.  Calling [get] on
    the nil interface value panics. *)
Fixpoint findObject_loop (doc : option container) (parts : list string)
    (lastkey : string) : M (option container * string) :=
  match parts with
  | [] => ret (doc, decodePatchKey lastkey)
  | part :: parts' =>
      match doc with
      | None => panic
      | Some c =>
          r ← attempt (get c (decodePatchKey part));
          match r with
          | inl (Some next) =>
              x ← deref next;
              match v_t x with
              | TypeArray => findObject_loop (Some (fastarray next)) parts' lastkey
              | TypeObject => findObject_loop (Some (fastdoc next)) parts' lastkey
              | _ => ret (None, EmptyString)
              end
          | _ => ret (None, EmptyString)
          end
      end
  end.

(** [findObject]: [parts := split[1 : len(split)-1]], [lastkey :=
    split[len(split)-1]]. *)
Definition findObject (pd : option container) (path : string)
    : M (option container * string) :=
  let split := strings.Split path "/" in
  if (length split <? 2)%nat then ret (None, EmptyString)
  else
    let parts := take (length split - 2) (drop 1 split) in
    let lastkey := List.last split EmptyString in
    findObject_loop pd parts lastkey.

(** ** Operation handlers

    The handlers take [doc *container]; only [replace] assigns through
    it, and only on success, so each handler returns the container that
    [*doc] holds when it returns [nil].  The trace output of the
    handlers ([fmt.Println], [spew.Dump]) is left out. *)

Definition Patch_add (doc : option container) (op : Operation) : M (option container) :=
  r ← attempt (Path op);
  match r with
  | inr err => fail (Errorf "%w: add operation failed decoding path" [ArgErr (Some err)])
  | inl path =>
      '(con, key) ← findObject doc path;
      match con with
      | None => fail (Errorf "doc is missing path: %s" [ArgStr path])
      | Some con =>
          val ← read (λ h, value h op);
          r ← attempt (add con key val);
          match r with
          | inr err =>
              fail (Errorf "%w: executing add op for path: %s" [ArgErr (Some err); ArgStr path])
          | inl _ => ret doc
          end
      end
  end.

Definition Patch_remove (doc : option container) (op : Operation) : M (option container) :=
  r ← attempt (Path op);
  match r with
  | inr err => fail (Errorf "%w: remove operation failed decoding path" [ArgErr (Some err)])
  | inl path =>
      '(con, key) ← findObject doc path;
      match con with
      | None => fail (Errorf "doc is missing path: %s" [ArgStr path])
      | Some con =>
          r ← attempt (remove con key);
          match r with
          | inr err =>
              fail (Errorf "%w: executing add op for path: %s" [ArgErr (Some err); ArgStr path])
          | inl _ => ret doc
          end
      end
  end.

Definition Patch_replace (doc : option container) (op : Operation) : M (option container) :=
  r ← attempt (Path op);
  match r with
  | inr err => fail (Errorf "%w: replace operation: decoding path" [ArgErr (Some err)])
  | inl path =>
      if String.eqb path EmptyString then
        (* apply replace on root *)
        val ← read (λ h, value h op);
        r ← attempt (intoFastType val);
        match r with
        | inr err =>
            fail (Errorf "%w: replace operation: value must be object or array" [ArgErr (Some err)])
        | inl con => ret (Some con)          (* *doc = con *)
        end
      else
        '(con, key) ← findObject doc path;
        match con with
        | None =>
            fail (Errorf "%w: replace operation: doc is missing path: %s" [ArgErr None; ArgStr path])
        | Some con =>
            (* exists? *)
            r ← attempt (get con key);
            match r with
            | inr err =>
                fail (Errorf "%w: replace operation: doc is missing key: %s" [ArgErr (Some err); ArgStr path])
            | inl _ =>
                val ← read (λ h, value h op);
                r ← attempt (set con key val);
                match r with
                | inr err =>
                    fail (Errorf "%w: replace operation: setting value for path: %s"
                            [ArgErr (Some err); ArgStr path])
                | inl _ => ret doc
                end
            end
        end
  end.

Definition Patch_move (doc : option container) (op : Operation) : M (option container) :=
  r ← attempt (From op);
  match r with
  | inr err => fail (Errorf "%w: move operation: failed to decode from" [ArgErr (Some err)])
  | inl from =>
      '(con, key) ← findObject doc from;
      match con with
      | None => fail (Errorf "move operation: doc is missing path %s" [ArgStr from])
      | Some con =>
          r ← attempt (get con key);
          match r with
          | inr err =>
              fail (Errorf "%w: move operation: getting value at path: %s" [ArgErr (Some err); ArgStr from])
          | inl val =>
              r ← attempt (Path op);
              match r with
              | inr err => fail (Errorf "%w: move operation: decoding path" [ArgErr (Some err)])
              | inl path =>
                  '(con, key) ← findObject doc path;
                  match con with
                  | None =>
                      fail (Errorf "%w: move operation: doc is missing destination path: %s"
                              [ArgErr None; ArgStr path])
                  | Some con =>
                      r ← attempt (add con key val);
                      match r with
                      | inr err =>
                          fail (Errorf "%w: move operation: adding value at path: %s"
                                  [ArgErr (Some err); ArgStr key])
                      | inl _ => ret doc
                      end
                  end
              end
          end
      end
  end.

Definition Patch_test (doc : option container) (op : Operation) : M (option container) :=
  panic.

Definition Patch_copy (doc : option container) (op : Operation) : M (option container) :=
  panic.

(** The body of the [for _, op := range p] loop of [ApplyFast]: the
    [switch op.Kind()]. *)
Definition apply_op (pd : option container) (op : Operation) : M (option container) :=
  kind ← read (λ h, Kind h op);
  if String.eqb kind "add" then Patch_add pd op
  else if String.eqb kind "remove" then Patch_remove pd op
  else if String.eqb kind "replace" then Patch_replace pd op
  else if String.eqb kind "move" then Patch_move pd op
  else if String.eqb kind "test" then Patch_test pd op
  else if String.eqb kind "copy" then Patch_copy pd op
  else fail (Errorf "unexpected operation kind: %v" [ArgStr kind]).

(** The loop: [if err != nil { return nil, err }] after each operation. *)
Fixpoint apply_ops (pd : option container) (p : Patch) : M (option container) :=
  match p with
  | [] => ret pd
  | op :: rest =>
      pd' ← apply_op pd op;
      apply_ops pd' rest
  end.

(** The container [ApplyFast] builds for the root. *)
Definition root_container (doc : addr) (t : Type_) : option container :=
  match t with
  | TypeArray => Some (fastarray doc)
  | TypeObject => Some (fastdoc doc)
  | _ => None
  end.

(** [ApplyFast]: returns [doc] itself, or [nil] and the error. *)
Definition ApplyFast (p : Patch) (doc : addr) : M addr :=
  x ← deref doc;
  let pd := root_container doc (v_t x) in
  apply_ops pd p;;
  ret doc.

(** ** Parsed JSON and its cells

    What [fastjson.ParseBytes] leaves in memory for a JSON text: one
    fresh cell per string, number, array and object, and the shared
    cells for [null], [true] and [false]. *)
Inductive JSON : Set :=
| JNull
| JTrue
| JFalse
| JNumber (raw : string)
| JString (s : string)
| JArray (items : list JSON)
| JObject (members : list (string * JSON)).

(** The store before anything is parsed, and the next free address. *)
Definition heap0 : Heap :=
  {[ valueNull := scalar TypeNull EmptyString;
     valueTrue := scalar TypeTrue EmptyString;
     valueFalse := scalar TypeFalse EmptyString ]}.

Definition next0 : addr := 3%nat.

(** Laying out the values of a list one after the other, [f] laying
    out one value. *)
Definition store_list {A B : Type} (f : A → addr * Heap → B * (addr * Heap)) :
    list A → addr * Heap → list B * (addr * Heap) :=
  fix go (l : list A) (st : addr * Heap) : list B * (addr * Heap) :=
    match l with
    | [] => ([], st)
    | a :: l' =>
        let r := f a st in
        let rs := go l' r.2 in
        (r.1 :: rs.1, rs.2)
    end.

(** [store j (n, h)] lays [j] out in cells from address [n] on and
    returns the address of its root cell: the cell of an array or an
    object comes first, then the cells of what it holds. *)
Fixpoint store (j : JSON) (st : addr * Heap) : addr * (addr * Heap) :=
  match j with
  | JNull => (valueNull, st)
  | JTrue => (valueTrue, st)
  | JFalse => (valueFalse, st)
  | JNumber raw => (st.1, (S st.1, <[st.1 := scalar TypeNumber raw]> st.2))
  | JString s => (st.1, (S st.1, <[st.1 := scalar TypeString s]> st.2))
  | JArray items =>
      let rs := store_list (λ j st, store j st) items (S st.1, st.2) in
      (st.1, (rs.2.1, <[st.1 := mkValue [] (Some <$> rs.1) EmptyString TypeArray]> rs.2.2))
  | JObject members =>
      let rs := store_list (λ '(k, j) st, let r := store j st in ((k, r.1), r.2))
                           members (S st.1, st.2) in
      (st.1, (rs.2.1, <[st.1 := mkValue rs.1 [] EmptyString TypeObject]> rs.2.2))
  end.

(** ** JSON text

    The parser and the printer of the library, on the JSON grammar:
    objects, arrays, strings with the two-character escapes, raw numbers
    and the three literals.  ([\u] escapes and the printer's quoting of
    control bytes are left out; a text that uses them does not parse
    here.) *)
Module text.

Definition dquote : ascii := "034".
Definition backslash : ascii := "092".

(** JSON text written with apostrophes for the double quotes. *)
Fixpoint json (s : string) : string :=
  match s with
  | EmptyString => EmptyString
  | String c rest => String (if Ascii.eqb c "'" then dquote else c) (json rest)
  end.

Definition is_space (c : ascii) : bool :=
  (Ascii.eqb c " " || Ascii.eqb c "010" || Ascii.eqb c "009" || Ascii.eqb c "013")%bool.

Fixpoint skipWS (s : string) : string :=
  match s with
  | String c rest => if is_space c then skipWS rest else s
  | EmptyString => s
  end.

Definition is_num_char (c : ascii) : bool :=
  (match strconv.digit c with Some _ => true | None => false end
   || Ascii.eqb c "-" || Ascii.eqb c "+" || Ascii.eqb c "."
   || Ascii.eqb c "e" || Ascii.eqb c "E")%bool.

Fixpoint span (f : ascii → bool) (s : string) : string * string :=
  match s with
  | String c rest =>
      if f c then let r := span f rest in (String c r.1, r.2) else (EmptyString, s)
  | EmptyString => (EmptyString, s)
  end.

Definition unescape (c : ascii) : option ascii :=
  if Ascii.eqb c dquote then Some c
  else if Ascii.eqb c backslash then Some c
  else if Ascii.eqb c "/" then Some c
  else if Ascii.eqb c "n" then Some "010"%char
  else if Ascii.eqb c "t" then Some "009"%char
  else if Ascii.eqb c "r" then Some "013"%char
  else if Ascii.eqb c "b" then Some "008"%char
  else if Ascii.eqb c "f" then Some "012"%char
  else None.

(** The rest of a string literal, after its opening quote. *)
Fixpoint parseString (s : string) : option (string * string) :=
  match s with
  | EmptyString => None
  | String c rest =>
      if Ascii.eqb c dquote then Some (EmptyString, rest)
      else if Ascii.eqb c backslash then
        match rest with
        | String e rest' =>
            c' ← unescape e;
            r ← parseString rest';
            Some (String c' r.1, r.2)
        | EmptyString => None
        end
      else r ← parseString rest; Some (String c r.1, r.2)
  end.

Definition literal (lit : string) (j : JSON) (s : string) : option (JSON * string) :=
  if strings.HasPrefix s lit
  then Some (j, String.substring (String.length lit) (String.length s - String.length lit) s)
  else None.

Fixpoint parseValue (fuel : nat) (s : string) : option (JSON * string) :=
  match fuel with
  | O => None
  | S fuel' =>
      match skipWS s with
      | EmptyString => None
      | String c rest =>
          if Ascii.eqb c "{" then
            match skipWS rest with
            | String "}" rest' => Some (JObject [], rest')
            | rest' => r ← parseMembers fuel' rest'; Some (JObject r.1, r.2)
            end
          else if Ascii.eqb c "[" then
            match skipWS rest with
            | String "]" rest' => Some (JArray [], rest')
            | rest' => r ← parseItems fuel' rest'; Some (JArray r.1, r.2)
            end
          else if Ascii.eqb c dquote then
            r ← parseString rest; Some (JString r.1, r.2)
          else if Ascii.eqb c "t" then literal "true" JTrue (String c rest)
          else if Ascii.eqb c "f" then literal "false" JFalse (String c rest)
          else if Ascii.eqb c "n" then literal "null" JNull (String c rest)
          else
            let r := span is_num_char (String c rest) in
            match r.1 with
            | EmptyString => None
            | raw => Some (JNumber raw, r.2)
            end
      end
  end
with parseItems (fuel : nat) (s : string) : option (list JSON * string) :=
  match fuel with
  | O => None
  | S fuel' =>
      v ← parseValue fuel' s;
      match skipWS v.2 with
      | String c rest =>
          if Ascii.eqb c "," then r ← parseItems fuel' rest; Some (v.1 :: r.1, r.2)
          else if Ascii.eqb c "]" then Some ([v.1], rest)
          else None
      | EmptyString => None
      end
  end
with parseMembers (fuel : nat) (s : string) : option (list (string * JSON) * string) :=
  match fuel with
  | O => None
  | S fuel' =>
      match skipWS s with
      | String c rest =>
          if Ascii.eqb c dquote then
            k ← parseString rest;
            match skipWS k.2 with
            | String c' rest' =>
                if Ascii.eqb c' ":" then
                  v ← parseValue fuel' rest';
                  match skipWS v.2 with
                  | String c'' rest'' =>
                      if Ascii.eqb c'' "," then
                        r ← parseMembers fuel' rest''; Some ((k.1, v.1) :: r.1, r.2)
                      else if Ascii.eqb c'' "}" then Some ([(k.1, v.1)], rest'')
                      else None
                  | EmptyString => None
                  end
                else None
            | EmptyString => None
            end
          else None
      | EmptyString => None
      end
  end.

(** A whole text: one value, then only white space. *)
Definition parse (s : string) : option JSON :=
  r ← parseValue (2 * String.length s + 2) s;
  match skipWS r.2 with
  | EmptyString => Some r.1
  | _ => None
  end.

(** [escapeString]: a string without special characters is written
    between quotes as it is, any other is quoted. *)
Fixpoint quote_body (s : string) : string :=
  match s with
  | EmptyString => EmptyString
  | String c rest =>
      if (Ascii.eqb c dquote || Ascii.eqb c backslash)%bool then String backslash (String c (quote_body rest))
      else if Ascii.eqb c "010" then String backslash (String "n" (quote_body rest))
      else if Ascii.eqb c "009" then String backslash (String "t" (quote_body rest))
      else if Ascii.eqb c "013" then String backslash (String "r" (quote_body rest))
      else String c (quote_body rest)
  end.

Definition escapeString (s : string) : string :=
  String dquote (quote_body s) +:+ String dquote EmptyString.

(** Items separated by commas: [if i != len-1 { dst = append(dst, ',') }]. *)
Fixpoint commas (l : list string) : string :=
  match l with
  | [] => EmptyString
  | [x] => x
  | x :: l' => x +:+ "," +:+ commas l'
  end.

End text.

(** [func (v *Value) MarshalTo(dst []byte) []byte] on the cell at [p];
    [None] when a nil or dangling pointer is met (a panic in Go) or the
    cells go deeper than [fuel]. *)
Fixpoint MarshalTo (fuel : nat) (h : Heap) (p : addr) : option string :=
  match fuel with
  | O => None
  | S fuel' =>
      x ← h !! p;
      match v_t x with
      | TypeObject =>
          ms ← mapM (λ kv : string * addr,
                       v ← MarshalTo fuel' h kv.2;
                       Some (text.escapeString kv.1 +:+ ":" +:+ v)) (v_o x);
          Some ("{" +:+ text.commas ms +:+ "}")
      | TypeArray =>
          vs ← mapM (λ e : ptr, e ≫= MarshalTo fuel' h) (v_a x);
          Some ("[" +:+ text.commas vs +:+ "]")
      | TypeString => Some (text.escapeString (v_s x))
      | TypeNumber => Some (v_s x)
      | TypeTrue => Some "true"
      | TypeFalse => Some "false"
      | TypeNull => Some "null"
      end
  end.

(** The first address above every cell in use. *)
Definition next_free (h : Heap) : addr :=
  S (max_list (map_to_list h).*1).

(** [fastjson.ParseBytes] *)
Definition ParseBytes (buf : string) : M addr :=
  λ h, match text.parse buf with
       | Some j => let r := store j (next_free h, h) in (Ok r.1, r.2.2)
       | None => (Err (Errorf "cannot parse JSON" []), h)
       end.

(** The part of [DecodePatch] after parsing: the parsed value has to be
    an array of objects. *)
Fixpoint DecodePatch_loop (patchOps : list ptr) : M Patch :=
  match patchOps with
  | [] => ret []
  | None :: _ => panic
  | Some patchOp :: rest =>
      x ← deref patchOp;
      if decide (v_t x = TypeObject) then
        patch ← DecodePatch_loop rest;
        ret (mkOperation patchOp :: patch)
      else fail (Errorf "value doesn't contain object; it contains %s" [])
  end.

Definition DecodePatch (buf : string) : M Patch :=
  parsed ← ParseBytes buf;
  x ← deref parsed;
  if decide (v_t x = TypeArray) then DecodePatch_loop (v_a x)
  else fail (Errorf "unexpected patch type: %s" []).

(** Enough depth for any store in which no cell is reachable from
    itself: a chain of distinct cells is no longer than the number of
    cells.  (Around a cycle [MarshalTo] does not return in Go and has no
    result here.) *)
Definition depth (h : Heap) : nat := S (size h).

(** [func (o Operation) Marshal() []byte] *)
Definition Operation_Marshal (h : Heap) (o : Operation) : option string :=
  MarshalTo (depth h) h (op_v o).

(** [func (p Patch) Marshal() ([]byte, error)]: the bytes of each
    operation are written to the buffer one after the other, between
    the two brackets. *)
Definition Patch_Marshal (h : Heap) (p : Patch) : option string :=
  ops ← mapM (Operation_Marshal h) p;
  Some ("[" +:+ String.concat EmptyString ops +:+ "]").

(** [func (p Patch) Apply(doc []byte) ([]byte, error)] *)
Definition Apply (p : Patch) (doc : string) : M string :=
  if (String.length doc =? 0)%nat then ret doc
  else
    parsedDoc ← ParseBytes doc;
    patchedDoc ← ApplyFast p parsedDoc;
    buf ← read (λ h, MarshalTo (depth h) h patchedDoc);
    match buf with
    | Some buf => ret buf
    | None => panic
    end.

(** Decode a patch text and apply it to a document text, from the
    initial store. *)
Definition run (doc patch : string) : res string :=
  ((p ← DecodePatch patch; Apply p doc) heap0).1.

(** ** Notions used in the statements *)

(** The cell a container is a view of. *)
Definition cell (c : container) : addr :=
  match c with
  | fastdoc v => v
  | fastarray v => v
  end.

(** A container as [ApplyFast], [intoFastType] and [findObject] build
    it: a [fastdoc] on an object cell, a [fastarray] on an array cell. *)
Definition wt (h : Heap) (c : container) : Prop :=
  ∃ x, h !! cell c = Some x
       ∧ v_t x = match c with fastdoc _ => TypeObject | fastarray _ => TypeArray end.

Definition wt_root (h : Heap) (pd : option container) : Prop :=
  match pd with
  | Some c => wt h c
  | None => True
  end.

(** The final key names something in the parent container: a member
    of the object, or an index below the length of the array. *)
Definition present (h : Heap) (c : container) (key : string) : bool :=
  match h !! cell c with
  | Some x =>
      match c with
      | fastdoc _ => bool_decide (is_Some (Object_Get (v_o x) key))
      | fastarray _ => bool_decide (is_Some (index_in key (length (v_a x))))
      end
  | None => false
  end.

(** The final key is one at which [add] puts the value: any member
    name of an object; in an array, an index up to the length. *)
Definition insertable (h : Heap) (c : container) (key : string) : Prop :=
  match c with
  | fastdoc _ => True
  | fastarray arr =>
      ∃ x idx, h !! arr = Some x ∧ strconv.Atoi key = Ok idx
               ∧ 0 ≤ idx ≤ Z.of_nat (length (v_a x))
  end.

(** The cells a cell points to, and a store laid out as the parser
    leaves it: what a cell points to comes after it, or is one of the
    three shared cells, which are not containers. *)
Definition children (x : Value) : list addr :=
  omap id (v_a x) ++ (v_o x).*2.

Definition laid_out (h : Heap) : Prop :=
  (∀ p x q, h !! p = Some x → q ∈ children x → (p < q)%nat ∨ (q < next0)%nat)
  ∧ (∀ q y, (q < next0)%nat → h !! q = Some y →
            v_t y ≠ TypeObject ∧ v_t y ≠ TypeArray).

(** Reading a pointer: resolve it to (parent, key) and [get] the key. *)
Definition at_pointer (pd : option container) (path : string) : M ptr :=
  '(con, key) ← findObject pd path;
  match con with
  | Some con => get con key
  | None => ret None
  end.

(** The cells whose members are read while the intermediate tokens
    [parts] are walked from [doc]. *)
Fixpoint loop_reads (h : Heap) (doc : option container) (parts : list string) : list addr :=
  match parts, doc with
  | part :: parts', Some c =>
      cell c ::
      match (get c (decodePatchKey part) h).1 with
      | Ok (Some next) =>
          match v_t <$> h !! next with
          | Some TypeArray => loop_reads h (Some (fastarray next)) parts'
          | Some TypeObject => loop_reads h (Some (fastdoc next)) parts'
          | _ => []
          end
      | _ => []
      end
  | _, _ => []
  end.

Definition reads (h : Heap) (pd : option container) (path : string) : list addr :=
  let split := strings.Split path "/" in
  loop_reads h pd (take (length split - 2) (drop 1 split)).

(** The pointer that an operation resolves first: [path] for [add],
    [remove] and [replace] with a non-empty path, [from] for [move]. *)
Definition first_pointer (h : Heap) (op : Operation) : option string :=
  let kind := Kind h op in
  if (String.eqb kind "add" || String.eqb kind "remove")%bool then getStringField h op "path"
  else if String.eqb kind "replace" then
    match getStringField h op "path" with
    | Some path => if String.eqb path EmptyString then None else Some path
    | None => None
    end
  else if String.eqb kind "move" then getStringField h op "from"
  else None.

(** A document text and a patch text, parsed and decoded from the
    initial store. *)
Definition parsed (doc patch : string) : res (addr * Patch) * Heap :=
  (d ← ParseBytes doc; p ← DecodePatch patch; ret (d, p)) heap0.

(** Induction on a JSON value with the hypothesis for every item of
    an array and every member of an object. *)
Section JSON_induction.
Variable P : JSON → Prop.
Hypothesis HNull : P JNull.
Hypothesis HTrue : P JTrue.
Hypothesis HFalse : P JFalse.
Hypothesis HNumber : ∀ raw, P (JNumber raw).
Hypothesis HString : ∀ s, P (JString s).
Hypothesis HArray : ∀ items, Forall P items → P (JArray items).
Hypothesis HObject : ∀ members, Forall (λ kv, P kv.2) members → P (JObject members).

Fixpoint JSON_nested_ind (j : JSON) : P j :=
  match j with
  | JNull => HNull
  | JTrue => HTrue
  | JFalse => HFalse
  | JNumber raw => HNumber raw
  | JString s => HString s
  | JArray items =>
      HArray items
        ((fix go (l : list JSON) : Forall P l :=
            match l with
            | [] => @List.Forall_nil _ P
            | j :: l' => @List.Forall_cons _ P j l' (JSON_nested_ind j) (go l')
            end) items)
  | JObject members =>
      HObject members
        ((fix go (l : list (string * JSON)) : Forall (λ kv, P kv.2) l :=
            match l with
            | [] => @List.Forall_nil _ _
            | kv :: l' => @List.Forall_cons _ (λ kv, P kv.2) kv l' (JSON_nested_ind kv.2) (go l')
            end) members)
  end.
End JSON_induction.

(** No cell at [n] or above. *)
Definition fresh_above (n : addr) (h : Heap) : Prop :=
  ∀ p, (n ≤ p)%nat → h !! p = None.

(** What laying out from [(n, h)] to [(n', h')] with root cells [roots]
    guarantees. *)
Definition store_ok (n : addr) (h : Heap) (roots : list addr) (n' : addr) (h' : Heap) : Prop :=
  (n ≤ n')%nat
  ∧ Forall (λ q, (q < next0)%nat ∨ (n ≤ q)%nat) roots
  ∧ (∀ p, (p < n)%nat → h' !! p = h !! p)
  ∧ (fresh_above n h →
     fresh_above n' h'
     ∧ ∀ p x q, (n ≤ p)%nat → h' !! p = Some x → q ∈ children x →
                (p < q)%nat ∨ (q < next0)%nat).

(** What the first resolution does on the nil container. *)
Definition nil_outcome (pointer : string) (r : res (option container) * Heap) (h : Heap) : Prop :=
  if (length (strings.Split pointer "/") <? 3)%nat then ∃ e, r = (Err e, h)
  else r = (Panic, h).

(** ** Further notions used in the statements *)

(** [c] occurs in [s]. *)
Fixpoint contains_char (c : ascii) (s : string) : bool :=
  match s with
  | EmptyString => false
  | String d rest => (Ascii.eqb d c || contains_char c rest)%bool
  end.

(** The escaping of RFC 6901 that [decodePatchKey] undoes: [~] is
    written [~0] and [/] is written [~1]. *)
Fixpoint encodePatchKey (k : string) : string :=
  match k with
  | EmptyString => EmptyString
  | String c rest =>
      if Ascii.eqb c "~" then String "~" (String "0" (encodePatchKey rest))
      else if Ascii.eqb c "/" then String "~" (String "1" (encodePatchKey rest))
      else String c (encodePatchKey rest)
  end.

(** A failed call has written nothing. *)
Definition clean {A} (r : res A * Heap) (h : Heap) : Prop :=
  match r.1 with
  | Ok _ => True
  | _ => r.2 = h
  end.

(** The cells of the value at [p]: [p] itself and what is reached from
    it through elements and members, [fuel] cells deep. *)
Fixpoint inside (fuel : nat) (h : Heap) (p : addr) : list addr :=
  match fuel with
  | O => []
  | S fuel' =>
      p :: match h !! p with
           | Some x => children x ≫= inside fuel' h
           | None => []
           end
  end.

(** The reads of the walk of [findObject]: each container that the
    intermediate tokens [parts] are looked up in from [doc], with the
    decoded token. *)
Fixpoint loop_steps (h : Heap) (doc : option container) (parts : list string)
    : list (container * string) :=
  match parts, doc with
  | part :: parts', Some c =>
      (c, decodePatchKey part) ::
      match (get c (decodePatchKey part) h).1 with
      | Ok (Some next) =>
          match v_t <$> h !! next with
          | Some TypeArray => loop_steps h (Some (fastarray next)) parts'
          | Some TypeObject => loop_steps h (Some (fastdoc next)) parts'
          | _ => []
          end
      | _ => []
      end
  | _, _ => []
  end.

Definition steps (h : Heap) (pd : option container) (path : string)
    : list (container * string) :=
  let split := strings.Split path "/" in
  loop_steps h pd (take (length split - 2) (drop 1 split)).

(** Both tokens are indices, [t] before [key], or at [key] when not
    [strict]. *)
Definition index_before (strict : bool) (t key : string) : bool :=
  match strconv.Atoi t, strconv.Atoi key with
  | Ok i, Ok j => if strict then i <? j else i <=? j
  | _, _ => false
  end.

(** The read [s] of a walk looks at nothing that an [add] at [key] in
    [dc] writes or shifts: it reads another cell, another member of the
    object, or an element of the array before the index. *)
Definition untouched (dc : container) (key : string) (s : container * string) : bool :=
  (negb (cell s.1 =? cell dc)%nat
   || match dc with
      | fastdoc _ => negb (String.eqb s.2 key)
      | fastarray _ => index_before true s.2 key
      end)%bool.

(** The final read of the source, [k1] in [sc], still finds the value
    after it is added at [key] in [dc]: in another cell, in the same
    object (under [key] itself the value is the one added), or in the
    same array at an index that is not after [key]. *)
Definition source_stays (dc : container) (key : string) (sc : container) (k1 : string)
    : bool :=
  (negb (cell sc =? cell dc)%nat
   || match dc with
      | fastdoc _ => true
      | fastarray _ => index_before false k1 key
      end)%bool.

(** * Properties *)

(** Unfolding of the calls down to functions on the store. *)
Ltac unfold_M :=
  unfold mbind, M_bind, mret, M_ret, bind, ret, fail, panic, read, modify,
    lift, attempt, deref in *.

(** ** Token decoding *)

Lemma replace_from_scan (n : nat) :
  ∀ s, (String.length s ≤ n)%nat →
       strings.replace_from rfc6901Decoder 0 s = decode_scan s.
Proof.
  induction n as [|n IH]; intros [|c s] Hlen; simpl in Hlen; try lia; try reflexivity.
  cbn [strings.replace_from decode_scan].
  destruct (Ascii.eqb_spec c "~") as [->|Hc].
  - destruct s as [|d s'].
    + reflexivity.
    + simpl in Hlen.
      destruct (Ascii.eqb_spec d "1") as [->|Hd1].
      { cbn. rewrite IH by lia. reflexivity. }
      destruct (Ascii.eqb_spec d "0") as [->|Hd0].
      { cbn. rewrite IH by lia. reflexivity. }
      assert (Hl : strings.lookup rfc6901Decoder (String "~" (String d s')) = None).
      { cbn. apply Ascii.eqb_neq in Hd1, Hd0.
        rewrite Hd1, Hd0. reflexivity. }
      rewrite Hl, IH by (simpl; lia). reflexivity.
  - assert (Hl : strings.lookup rfc6901Decoder (String c s) = None).
    { cbn. apply Ascii.eqb_neq in Hc. rewrite Hc. reflexivity. }
    rewrite Hl, IH by lia. reflexivity.
Qed.

(** C3. [decodePatchKey] is the single left-to-right scan of the
    specification, in which [~1] gives [/] and [~0] gives [~] and no
    produced byte is decoded again: [a~01b] decodes to [a~1b] and
    [c~10d] decodes to [c/0d]. *)
Theorem decodePatchKey_single_scan :
  (∀ k, decodePatchKey k = decode_scan k)
  ∧ decodePatchKey "a~01b" = "a~1b"
  ∧ decodePatchKey "c~10d" = "c/0d".
Proof.
  split; [|split; reflexivity].
  intros k. apply (replace_from_scan (String.length k)). lia.
Qed.

(** ** Index tokens *)

Module strconv_facts.
Import strconv.

Lemma digit_of_nat (d : Z) :
  0 ≤ d < 10 → digit (ascii_of_nat (Z.to_nat (48 + d))) = Some d.
Proof.
  intros Hd. unfold digit.
  rewrite nat_ascii_embedding by lia.
  rewrite Z2Nat.id by lia.
  destruct (Z.leb_spec 48 (48 + d)); [|lia].
  destruct (Z.leb_spec (48 + d) 57); [|lia].
  simpl. f_equal. lia.
Qed.

Lemma digits_app (s1 s2 : string) :
  ∀ m, digits (s1 +:+ s2) m = digits s1 m ≫= digits s2.
Proof.
  induction s1 as [|c s1 IH]; intros m; [reflexivity|].
  change (digits (String c (s1 +:+ s2)) m = digits (String c s1) m ≫= digits s2).
  simpl. destruct (digit c); [apply IH|reflexivity].
Qed.

Lemma append_assoc (s1 s2 s3 : string) : (s1 +:+ s2) +:+ s3 = s1 +:+ (s2 +:+ s3).
Proof.
  induction s1 as [|c s1 IH]; [reflexivity|].
  change (String c ((s1 +:+ s2) +:+ s3) = String c (s1 +:+ (s2 +:+ s3))).
  by rewrite IH.
Qed.

Lemma itoa_go_acc (fuel : nat) :
  ∀ n acc, itoa_go fuel n acc = itoa_go fuel n EmptyString +:+ acc.
Proof.
  induction fuel as [|fuel IH]; intros n acc; simpl; [reflexivity|].
  destruct (n <? 10); [reflexivity|].
  rewrite IH, (IH _ (String _ EmptyString)).
  rewrite append_assoc. reflexivity.
Qed.

Lemma digits_itoa_go (fuel : nat) :
  ∀ n, 0 ≤ n < 10 ^ Z.of_nat (S fuel) →
       digits (itoa_go fuel n EmptyString) 0 = Some n.
Proof.
  induction fuel as [|fuel IH]; intros n Hn.
  - change (10 ^ Z.of_nat 1) with 10 in Hn.
    assert (n mod 10 = n) as Hmod by (apply Z.mod_small; lia).
    simpl. rewrite Hmod, digit_of_nat by lia. reflexivity.
  - cbn [itoa_go]. destruct (Z.ltb_spec n 10) as [Hlt|Hge].
    + assert (n mod 10 = n) as Hmod by (apply Z.mod_small; lia).
      simpl. rewrite Hmod, digit_of_nat by lia. reflexivity.
    + rewrite itoa_go_acc, digits_app, IH.
      * simpl. rewrite digit_of_nat by (apply Z.mod_pos_bound; lia).
        f_equal. pose proof (Z.div_mod n 10). lia.
      * split; [apply Z.div_pos; lia|].
        apply Z.div_lt_upper_bound; [lia|].
        rewrite Nat2Z.inj_succ, Z.pow_succ_r in Hn by lia. lia.
Qed.

Lemma itoa_go_head (fuel : nat) :
  ∀ n acc, 0 ≤ n → ∃ c rest d, itoa_go fuel n acc = String c rest ∧ digit c = Some d.
Proof.
  induction fuel as [|fuel IH]; intros n acc Hn; cbn [itoa_go].
  - eexists _, _, _. split; [reflexivity|]. apply digit_of_nat, Z.mod_pos_bound; lia.
  - destruct (n <? 10).
    + eexists _, _, _. split; [reflexivity|]. apply digit_of_nat, Z.mod_pos_bound; lia.
    + apply IH, Z.div_pos; lia.
Qed.

Lemma Atoi_Itoa (n : Z) : 0 ≤ n ≤ MaxInt → Atoi (Itoa n) = Ok n.
Proof.
  intros Hn. unfold Itoa.
  destruct (Z.ltb_spec n 0); [lia|].
  destruct (itoa_go_head 19 n EmptyString) as (c & rest & d & Heq & Hd); [lia|].
  pose proof (digits_itoa_go 19 n) as Hdigits.
  rewrite Heq in *. unfold Atoi.
  assert (Ascii.eqb c "-" = false) as ->.
  { apply Ascii.eqb_neq. intros ->. discriminate. }
  assert (Ascii.eqb c "+" = false) as ->.
  { apply Ascii.eqb_neq. intros ->. discriminate. }
  cbn [orb]. rewrite Hdigits.
  - unfold MinInt, MaxInt in *.
    destruct (Z.leb_spec (- 2 ^ 63) n); [|lia].
    destruct (Z.leb_spec n (2 ^ 63 - 1)); [|lia]. reflexivity.
  - unfold MaxInt in Hn. split; [lia|].
    eapply Z.le_lt_trans; [apply Hn|]. reflexivity.
Qed.

Lemma Itoa_not_dash (n : Z) : 0 ≤ n ≤ MaxInt → String.eqb (Itoa n) "-" = false.
Proof.
  intros Hn. apply String.eqb_neq. intros Heq.
  pose proof (Atoi_Itoa n Hn) as H. rewrite Heq in H. discriminate.
Qed.
End strconv_facts.

(** ** Updates of one cell *)

Lemma update_Some (h : Heap) (p : addr) (f : Value → Value) (x : Value) :
  h !! p = Some x → update p f h = <[p := f x]> h.
Proof. intros Hp. unfold update. by apply alter_alt_Some. Qed.

Lemma update_id (h : Heap) (p : addr) (f : Value → Value) :
  (∀ x, h !! p = Some x → f x = x) → update p f h = h.
Proof.
  intros Hf. unfold update. apply map_eq. intros i.
  destruct (decide (p = i)) as [->|Hne].
  - rewrite lookup_alter_eq. destruct (h !! i) as [x|] eqn:E; simpl; [|done].
    by rewrite Hf.
  - by rewrite lookup_alter_ne.
Qed.

(** ** [fastarray] *)

Lemma getIndex_Ok (key : string) (idx : Z) :
  getIndex key = Ok idx ↔ strconv.Atoi key = Ok idx ∧ 0 ≤ idx.
Proof.
  unfold getIndex.
  destruct (strconv.Atoi key) as [n|e|]; [|split; [done|by intros [? _]]..].
  destruct (Z.ltb_spec n 0) as [Hneg|Hpos]; split.
  - discriminate.
  - intros [Hn Hidx]. injection Hn as ->. lia.
  - intros Hn. injection Hn as ->. done.
  - by intros [-> _].
Qed.

Lemma Atoi_not_Panic (key : string) : strconv.Atoi key ≠ Panic.
Proof.
  unfold strconv.Atoi. destruct key as [|c rest]; [done|].
  destruct (if (_ || _)%bool then rest else _); [done|].
  destruct (strconv.digits _ _); [|done].
  by destruct (_ && _)%bool.
Qed.

Lemma getIndex_Err (key : string) :
  (∀ idx, strconv.Atoi key = Ok idx → idx < 0) → ∃ e, getIndex key = Err e.
Proof.
  intros H. unfold getIndex.
  pose proof (Atoi_not_Panic key) as Hp.
  destruct (strconv.Atoi key) as [n|e|]; [|by eexists|done].
  specialize (H n eq_refl). destruct (Z.ltb_spec n 0); [by eexists|lia].
Qed.

Section fastarray_facts.
Context (h : Heap) (arr : addr) (x : Value).
Hypothesis Harr : h !! arr = Some x.
Hypothesis Htype : v_t x = TypeArray.

Lemma fastarray_set_in_range (key : string) (idx : Z) (val : ptr) :
  strconv.Atoi key = Ok idx → 0 ≤ idx < Z.of_nat (length (v_a x)) →
  fastarray_set arr key val h
  = (Ok tt, <[arr := set_a x (<[Z.to_nat idx := val]> (v_a x))]> h).
Proof.
  intros Hkey Hidx. unfold fastarray_set. unfold_M.
  assert (getIndex key = Ok idx) as -> by (apply getIndex_Ok; split; [done|lia]).
  rewrite (update_Some _ _ _ x Harr). unfold Value_SetArrayItem. rewrite Htype.
  destruct (Z.leb_spec (Z.of_nat (length (v_a x))) idx); [lia|done].
Qed.

Lemma fastarray_set_beyond (key : string) (idx : Z) (val : ptr) :
  strconv.Atoi key = Ok idx → Z.of_nat (length (v_a x)) ≤ idx →
  fastarray_set arr key val h = (Ok tt, <[arr := set_a x (v_a x ++ [val])]> h).
Proof.
  intros Hkey Hidx. unfold fastarray_set. unfold_M.
  assert (getIndex key = Ok idx) as -> by (apply getIndex_Ok; split; [done|lia]).
  rewrite (update_Some _ _ _ x Harr). unfold Value_SetArrayItem. rewrite Htype.
  destruct (Z.leb_spec (Z.of_nat (length (v_a x))) idx); [done|lia].
Qed.

Lemma fastarray_set_invalid (key : string) (val : ptr) :
  (∀ idx, strconv.Atoi key = Ok idx → idx < 0) →
  ∃ e, fastarray_set arr key val h = (Err e, h).
Proof.
  intros Hkey. destruct (getIndex_Err key Hkey) as [e He].
  exists e. unfold fastarray_set. unfold_M. by rewrite He.
Qed.

Lemma fastarray_add_dash (val : ptr) :
  Z.of_nat (length (v_a x)) ≤ strconv.MaxInt →
  fastarray_add arr "-" val h = (Ok tt, <[arr := set_a x (v_a x ++ [val])]> h).
Proof.
  intros Hlen. unfold fastarray_add. cbn [String.eqb Ascii.eqb Bool.eqb]. unfold_M.
  rewrite (update_Some _ _ _ x Harr). unfold Value_SetArrayItem. rewrite Htype.
  destruct (Z.leb_spec (Z.of_nat (length (v_a x))) strconv.MaxInt); [done|lia].
Qed.

Lemma fastarray_add_index (key : string) (idx : Z) (val : ptr) :
  String.eqb key "-" = false →
  strconv.Atoi key = Ok idx → 0 ≤ idx ≤ Z.of_nat (length (v_a x)) →
  fastarray_add arr key val h
  = (Ok tt, <[arr := set_a x (take (Z.to_nat idx) (v_a x) ++ val :: drop (Z.to_nat idx) (v_a x))]> h).
Proof.
  intros Hdash Hkey Hidx. unfold fastarray_add. rewrite Hdash. unfold_M.
  assert (getIndex key = Ok idx) as -> by (apply getIndex_Ok; split; [done|lia]).
  rewrite (update_Some _ _ _ x Harr). unfold Value_InsertArrayItem. rewrite Htype.
  destruct (Z.leb_spec (Z.of_nat (length (v_a x))) idx) as [Hle|]; [|done].
  assert (Z.to_nat idx = length (v_a x)) as -> by lia.
  by rewrite firstn_all, drop_all.
Qed.
End fastarray_facts.

(** C5 (amended). In an array of length [n], [set] with an index token
    that [strconv.Atoi] reads as [idx] with [0 <= idx < n] replaces the
    element at [idx] and nothing else; a token that is negative or that
    [strconv.Atoi] rejects yields an error and leaves the array as it
    was; a token with [idx >= n] is not an error: [set] returns [nil]
    and the value is appended after the last element. *)
Theorem fastarray_set_bounds (h : Heap) (arr : addr) (x : Value) (key : string) (val : ptr) :
  h !! arr = Some x → v_t x = TypeArray →
  (∀ idx, strconv.Atoi key = Ok idx → 0 ≤ idx < Z.of_nat (length (v_a x)) →
     fastarray_set arr key val h
     = (Ok tt, <[arr := set_a x (<[Z.to_nat idx := val]> (v_a x))]> h))
  ∧ ((∀ idx, strconv.Atoi key = Ok idx → idx < 0) →
     ∃ e, fastarray_set arr key val h = (Err e, h))
  ∧ (∀ idx, strconv.Atoi key = Ok idx → Z.of_nat (length (v_a x)) ≤ idx →
     fastarray_set arr key val h = (Ok tt, <[arr := set_a x (v_a x ++ [val])]> h)).
Proof.
  intros Harr Htype. split; [|split].
  - intros idx. by apply fastarray_set_in_range.
  - by apply fastarray_set_invalid.
  - intros idx. by apply fastarray_set_beyond.
Qed.

Lemma fastarray_set_bounds_witness :
  let st := ParseBytes (text.json "[1,2]") heap0 in
  st.1 = Ok 3%nat
  ∧ st.2 !! 3%nat = Some (mkValue [] [Some 4%nat; Some 5%nat] EmptyString TypeArray)
  ∧ fastarray_set 3 "1" (Some valueTrue) st.2
    = (Ok tt, <[3%nat := mkValue [] [Some 4%nat; Some valueTrue] EmptyString TypeArray]> st.2)
  ∧ (∃ e, fastarray_set 3 "-1" (Some valueTrue) st.2 = (Err e, st.2))
  ∧ (∃ e, fastarray_set 3 "one" (Some valueTrue) st.2 = (Err e, st.2)).
Proof.
  intros st.
  assert (Hx : st.2 !! 3%nat = Some (mkValue [] [Some 4%nat; Some 5%nat] EmptyString TypeArray))
    by reflexivity.
  split; [reflexivity|]. split; [exact Hx|].
  split; [|split].
  - destruct (fastarray_set_bounds st.2 3 _ "1" (Some valueTrue) Hx eq_refl) as (H & _ & _).
    apply (H 1); [reflexivity|simpl; lia].
  - destruct (fastarray_set_bounds st.2 3 _ "-1" (Some valueTrue) Hx eq_refl) as (_ & H & _).
    apply H. intros idx Hidx. vm_compute in Hidx. injection Hidx as <-. lia.
  - destruct (fastarray_set_bounds st.2 3 _ "one" (Some valueTrue) Hx eq_refl) as (_ & H & _).
    apply H. intros idx Hidx. vm_compute in Hidx. discriminate.
Defined.

(** C5 (counterexample). The array [[1]] has length 1; [set] with the
    token [5] returns no error, and the array is then [[1,true]]. *)
Lemma fastarray_set_beyond_length_is_no_error :
  let st := ParseBytes (text.json "[1]") heap0 in
  let after := fastarray_set 3 "5" (Some valueTrue) st.2 in
  st.1 = Ok 3%nat
  ∧ st.2 !! 3%nat = Some (mkValue [] [Some 4%nat] EmptyString TypeArray)
  ∧ getIndex "5" = Ok 5
  ∧ after.1 = Ok tt
  ∧ is_Err after.1 = false
  ∧ MarshalTo (depth after.2) after.2 3 = Some (text.json "[1,true]").
Proof. repeat split; vm_compute; reflexivity. Qed.

(** C6. On an array of length [n], [add] with the token [-] and [add]
    with the decimal token for [n] leave the same array: the old
    elements followed by the new one, of length [n + 1]. *)
Theorem fastarray_add_append (h : Heap) (arr : addr) (x : Value) (val : ptr) :
  h !! arr = Some x → v_t x = TypeArray →
  Z.of_nat (length (v_a x)) ≤ strconv.MaxInt →
  fastarray_add arr "-" val h
  = fastarray_add arr (strconv.Itoa (Z.of_nat (length (v_a x)))) val h
  ∧ fastarray_add arr "-" val h = (Ok tt, <[arr := set_a x (v_a x ++ [val])]> h)
  ∧ length (v_a x ++ [val]) = S (length (v_a x)).
Proof.
  intros Harr Htype Hlen.
  assert (Hn : 0 ≤ Z.of_nat (length (v_a x)) ≤ strconv.MaxInt) by lia.
  rewrite (fastarray_add_dash h arr x Harr Htype val Hlen).
  rewrite (fastarray_add_index h arr x Harr Htype _ (Z.of_nat (length (v_a x))) val
             (strconv_facts.Itoa_not_dash _ Hn) (strconv_facts.Atoi_Itoa _ Hn)) by lia.
  rewrite Nat2Z.id, firstn_all, drop_all, length_app. simpl.
  split; [done|]. split; [done|lia].
Qed.

Lemma fastarray_add_append_witness :
  let st := ParseBytes (text.json "[1,2]") heap0 in
  st.2 !! 3%nat = Some (mkValue [] [Some 4%nat; Some 5%nat] EmptyString TypeArray)
  ∧ fastarray_add 3 "-" (Some valueTrue) st.2 = fastarray_add 3 "2" (Some valueTrue) st.2
  ∧ MarshalTo (depth st.2) (fastarray_add 3 "-" (Some valueTrue) st.2).2 3
    = Some (text.json "[1,2,true]").
Proof.
  intros st.
  assert (Hx : st.2 !! 3%nat = Some (mkValue [] [Some 4%nat; Some 5%nat] EmptyString TypeArray))
    by reflexivity.
  split; [exact Hx|].
  destruct (fastarray_add_append st.2 3 _ (Some valueTrue) Hx eq_refl) as (H1 & H2 & _).
  { simpl. unfold strconv.MaxInt. lia. }
  split; [exact H1|]. rewrite H2. reflexivity.
Defined.

(** ** Resolution reads and does not write *)

Lemma get_heap (c : container) (key : string) (h : Heap) : (get c key h).2 = h.
Proof.
  destruct c as [d|arr]; simpl.
  - unfold fastdoc_get. unfold_M. destruct (h !! d) as [x|]; [|done].
    by destruct (Object_Get _ _).
  - done.
Qed.

Lemma findObject_loop_heap (parts : list string) :
  ∀ doc lastkey h, (findObject_loop doc parts lastkey h).2 = h.
Proof.
  induction parts as [|part parts IH]; intros doc lastkey h; [done|].
  cbn [findObject_loop]. destruct doc as [c|]; [|done].
  unfold_M. pose proof (get_heap c (decodePatchKey part) h) as Hg.
  destruct (get c _ h) as [[[next|]|e|] h1]; simpl in Hg; subst h1; try done.
  destruct (h !! next) as [x|]; [|done].
  destruct (v_t x); try done; apply IH.
Qed.

Lemma findObject_heap (pd : option container) (path : string) (h : Heap) :
  (findObject pd path h).2 = h.
Proof.
  unfold findObject. destruct (_ <? _)%nat; [done|]. apply findObject_loop_heap.
Qed.

Lemma findObject_loop_wt (parts : list string) :
  ∀ doc lastkey h con key h',
    wt_root h doc →
    findObject_loop doc parts lastkey h = (Ok (Some con, key), h') →
    wt h con.
Proof.
  induction parts as [|part parts IH]; intros doc lastkey h con key h' Hwt Hfind.
  - cbn in Hfind. by injection Hfind as -> _ _.
  - cbn [findObject_loop] in Hfind. destruct doc as [c|]; [|done].
    unfold_M. pose proof (get_heap c (decodePatchKey part) h) as Hg.
    destruct (get c _ h) as [[[next|]|e|] h1]; simpl in Hg; subst h1; try done.
    destruct (h !! next) as [x|] eqn:Hnext; [|done].
    destruct (v_t x) eqn:Ht; try done;
      (eapply IH; [|exact Hfind]; exists x; done).
Qed.

Lemma findObject_wt (pd : option container) (path : string) (h h' : Heap)
    (con : container) (key : string) :
  wt_root h pd → findObject pd path h = (Ok (Some con, key), h') → wt h con.
Proof.
  unfold findObject. destruct (_ <? _)%nat; [done|]. apply findObject_loop_wt.
Qed.

(** Resolution goes the same way after an update of a cell that it does
    not read, as long as the update keeps the type of the cell. *)
Lemma get_update_ne (c : container) (key : string) (h : Heap) (p : addr) (f : Value → Value) :
  cell c ≠ p → (get c key (update p f h)).1 = (get c key h).1.
Proof.
  intros Hne. destruct c as [d|arr]; simpl in *.
  - unfold fastdoc_get, update. unfold_M. rewrite lookup_alter_ne by done.
    destruct (h !! d) as [x|]; [|done]. by destruct (Object_Get _ _).
  - unfold fastarray_get, Get, update. unfold_M. simpl.
    by rewrite lookup_alter_ne.
Qed.

Lemma lookup_update_type (h : Heap) (p q : addr) (f : Value → Value) :
  (∀ x, v_t (f x) = v_t x) →
  v_t <$> update p f h !! q = v_t <$> h !! q.
Proof.
  intros Hf. unfold update. destruct (decide (p = q)) as [->|Hne].
  - rewrite lookup_alter_eq. destruct (h !! q); simpl; [by rewrite Hf|done].
  - by rewrite lookup_alter_ne.
Qed.

Lemma findObject_loop_update (p : addr) (f : Value → Value) (parts : list string) :
  (∀ x, v_t (f x) = v_t x) →
  ∀ doc lastkey h,
    p ∉ loop_reads h doc parts →
    (findObject_loop doc parts lastkey (update p f h)).1
    = (findObject_loop doc parts lastkey h).1.
Proof.
  intros Hf. induction parts as [|part parts IH]; intros doc lastkey h Hp; [done|].
  cbn [findObject_loop loop_reads] in *. destruct doc as [c|]; [|done].
  apply not_elem_of_cons in Hp as [Hc Hp].
  pose proof (get_update_ne c (decodePatchKey part) h p f (not_eq_sym Hc)) as Hget.
  pose proof (get_heap c (decodePatchKey part) h) as Hg.
  pose proof (get_heap c (decodePatchKey part) (update p f h)) as Hg'.
  unfold_M.
  destruct (get c _ h) as [r h1]; destruct (get c _ (update p f h)) as [r' h1'].
  simpl in *. subst h1 h1' r'.
  destruct r as [[next|]|e|]; try done.
  pose proof (lookup_update_type h p next f Hf) as Ht.
  destruct (update p f h !! next) as [x'|], (h !! next) as [x|]; simpl in Ht; try done.
  injection Ht as Ht. rewrite Ht.
  simpl in Hp. destruct (v_t x); try done; by apply IH.
Qed.

Lemma findObject_update (p : addr) (f : Value → Value) (pd : option container)
    (path : string) (h : Heap) :
  (∀ x, v_t (f x) = v_t x) →
  p ∉ reads h pd path →
  (findObject pd path (update p f h)).1 = (findObject pd path h).1.
Proof.
  intros Hf Hp. unfold findObject, reads in *.
  destruct (_ <? _)%nat; [done|]. by apply findObject_loop_update.
Qed.

(** Resolution from the nil container. *)
Lemma findObject_nil (path : string) (h : Heap) :
  findObject None path h
  = (if (length (strings.Split path "/") <? 3)%nat
     then Ok (None, if (length (strings.Split path "/") <? 2)%nat then EmptyString
                    else decodePatchKey (List.last (strings.Split path "/") EmptyString))
     else Panic, h).
Proof.
  unfold findObject.
  destruct (strings.Split path "/") as [|s0 [|s1 [|s2 l]]]; try done.
Qed.

(** ** [remove] *)

Lemma set_o_same (x : Value) : set_o x (v_o x) = x.
Proof. by destruct x. Qed.

Lemma Object_Del_absent (o : Object) (key : string) :
  Object_Get o key = None → Object_Del o key = o.
Proof.
  induction o as [|[k v] o IH]; simpl; [done|].
  destruct (String.eqb k key); [done|]. intros H. by rewrite IH.
Qed.

Lemma remove_absent (h : Heap) (con : container) (key : string) :
  wt h con → present h con key = false → remove con key h = (Ok tt, h).
Proof.
  intros (x & Hx & Ht) Habs. unfold present in Habs. rewrite Hx in Habs.
  destruct con as [d|arr]; simpl in *; unfold fastdoc_remove, fastarray_remove; unfold_M;
    f_equal; apply update_id; intros x' Hx'; rewrite Hx in Hx'; injection Hx' as <-.
  - apply bool_decide_eq_false in Habs.
    destruct (Object_Get (v_o x) key) eqn:E; [by destruct Habs|].
    by rewrite Object_Del_absent, set_o_same.
  - apply bool_decide_eq_false in Habs. unfold Value_Del. rewrite Ht.
    destruct (index_in key _); [by destruct Habs|done].
Qed.

Lemma remove_Ok (con : container) (key : string) (h : Heap) :
  (remove con key h).1 = Ok tt.
Proof. by destruct con. Qed.

Lemma Path_eq (op : Operation) (h : Heap) :
  Path op h = (match getStringField h op "path" with
               | Some val => Ok val
               | None => Err (Errorf "couldn't get path field" [])
               end, h).
Proof. unfold Path. by destruct (getStringField _ _ _). Qed.

Lemma From_eq (op : Operation) (h : Heap) :
  From op h = (match getStringField h op "from" with
               | Some val => Ok val
               | None => Err (Errorf "couldn't get from field" [])
               end, h).
Proof. unfold From. by destruct (getStringField _ _ _). Qed.

(** C9 (amended). [remove] returns an error only when the operation has
    no [path] or the path does not resolve to a parent container.  Once
    the parent is resolved, [remove] returns [nil] whether the final key
    is present or not, and when the key is absent (no such member, or an
    index outside the array) the document is left as it was. *)
Theorem Patch_remove_absent_is_noop (h : Heap) (doc : option container) (op : Operation) :
  wt_root h doc →
  match getStringField h op "path" with
  | None => ∃ e, Patch_remove doc op h = (Err e, h)
  | Some path =>
      match (findObject doc path h).1 with
      | Ok (Some con, key) =>
          Patch_remove doc op h = (Ok doc, (remove con key h).2)
          ∧ (present h con key = false → Patch_remove doc op h = (Ok doc, h))
      | Ok (None, _) => ∃ e, Patch_remove doc op h = (Err e, h)
      | Err e => Patch_remove doc op h = (Err e, h)
      | Panic => Patch_remove doc op h = (Panic, h)
      end
  end.
Proof.
  intros Hwt. unfold Patch_remove. unfold_M. rewrite Path_eq.
  destruct (getStringField h op "path") as [path|]; [|by eexists].
  pose proof (findObject_heap doc path h) as Hh.
  pose proof (findObject_wt doc path h) as Hcon.
  destruct (findObject doc path h) as [[[[con|] key]|e|] h1]; simpl in *; subst h1;
    [|by eexists|done|done].
  pose proof (remove_Ok con key h) as Hok.
  split.
  - destruct (remove con key h) as [r h2]. simpl in Hok. by subst r.
  - intros Habs. rewrite remove_absent; [done| |done]. by eapply Hcon.
Qed.

Lemma Patch_remove_absent_is_noop_witness :
  let st := parsed (text.json "{'a':1}") (text.json "[{'op':'remove','path':'/b'}]") in
  st.1 = Ok (3%nat, [mkOperation 6])
  ∧ wt_root st.2 (Some (fastdoc 3))
  ∧ present st.2 (fastdoc 3) "b" = false
  ∧ Patch_remove (Some (fastdoc 3)) (mkOperation 6) st.2 = (Ok (Some (fastdoc 3)), st.2).
Proof.
  intros st.
  assert (Hwt : wt_root st.2 (Some (fastdoc 3))) by (eexists; split; reflexivity).
  split; [reflexivity|]. split; [exact Hwt|]. split; [reflexivity|].
  pose proof (Patch_remove_absent_is_noop st.2 (Some (fastdoc 3)) (mkOperation 6) Hwt) as H.
  assert (E1 : getStringField st.2 (mkOperation 6) "path" = Some "/b") by reflexivity.
  rewrite E1 in H.
  assert (E2 : (findObject (Some (fastdoc 3)) "/b" st.2).1 = Ok (Some (fastdoc 3), "b"))
    by reflexivity.
  rewrite E2 in H. destruct H as [_ H]. apply H. reflexivity.
Defined.

(** C9 (counterexample). Removing a member that the object does not
    have, or an index beyond the end of the array, is not an error: the
    patch applies and the document comes back as it was. *)
Lemma remove_absent_target_succeeds :
  run (text.json "{'a':1}") (text.json "[{'op':'remove','path':'/b'}]")
  = Ok (text.json "{'a':1}")
  ∧ run (text.json "[1]") (text.json "[{'op':'remove','path':'/5'}]")
    = Ok (text.json "[1]").
Proof. split; vm_compute; reflexivity. Qed.

(** ** [replace] *)

(** On an object, the check in [replace] works: a member that is not
    there makes [get] fail, and nothing is written. *)
Lemma Patch_replace_absent_member (h : Heap) (doc : option container) (op : Operation)
    (path : string) (d : addr) (key : string) :
  getStringField h op "path" = Some path →
  path ≠ EmptyString →
  (findObject doc path h).1 = Ok (Some (fastdoc d), key) →
  present h (fastdoc d) key = false →
  wt h (fastdoc d) →
  ∃ e, Patch_replace doc op h = (Err e, h).
Proof.
  intros Hpath Hne Hfind Habs (x & Hx & _).
  unfold Patch_replace. unfold_M. rewrite Path_eq, Hpath.
  apply String.eqb_neq in Hne. rewrite Hne.
  pose proof (findObject_heap doc path h) as Hh.
  destruct (findObject doc path h) as [r h1]. simpl in *. subst h1 r.
  unfold fastdoc_get. unfold_M. unfold present in Habs. simpl in Habs.
  rewrite Hx in *. apply bool_decide_eq_false in Habs.
  cbn [get]. unfold fastdoc_get. unfold_M. rewrite Hx.
  destruct (Object_Get (v_o x) key); [by destruct Habs|by eexists].
Qed.

(** On an array, [get] never fails, so the check lets every index
    through and [set] appends. *)
Lemma Patch_replace_beyond_length (h : Heap) (doc : option container) (op : Operation)
    (path : string) (arr : addr) (x : Value) (key : string) (idx : Z) :
  getStringField h op "path" = Some path →
  path ≠ EmptyString →
  (findObject doc path h).1 = Ok (Some (fastarray arr), key) →
  h !! arr = Some x → v_t x = TypeArray →
  strconv.Atoi key = Ok idx → Z.of_nat (length (v_a x)) ≤ idx →
  Patch_replace doc op h = (Ok doc, <[arr := set_a x (v_a x ++ [value h op])]> h).
Proof.
  intros Hpath Hne Hfind Hx Ht Hkey Hidx.
  unfold Patch_replace. unfold_M. rewrite Path_eq, Hpath.
  apply String.eqb_neq in Hne. rewrite Hne.
  pose proof (findObject_heap doc path h) as Hh.
  destruct (findObject doc path h) as [r h1]. simpl in *. subst h1 r.
  cbn [get set]. unfold fastarray_get. unfold_M.
  by rewrite (fastarray_set_beyond h arr x Hx Ht key idx _ Hkey Hidx).
Qed.

(** C4 (the code at the failing input). The document [[1]] has no index
    5, yet [replace] at [/5] returns no error and the array has grown. *)
Theorem replace_out_of_range_index_succeeds :
  let st := parsed (text.json "[1]") (text.json "[{'op':'replace','path':'/5','value':2}]") in
  st.1 = Ok (3%nat, [mkOperation 6])
  ∧ (findObject (Some (fastarray 3)) "/5" st.2).1 = Ok (Some (fastarray 3), "5")
  ∧ present st.2 (fastarray 3) "5" = false
  ∧ (Patch_replace (Some (fastarray 3)) (mkOperation 6) st.2).1 = Ok (Some (fastarray 3))
  ∧ run (text.json "[1]") (text.json "[{'op':'replace','path':'/5','value':2}]")
    = Ok (text.json "[1,2]").
Proof. repeat split; vm_compute; reflexivity. Qed.

(** ** The value [ApplyFast] returns *)

Lemma ApplyFast_returns_doc (p : Patch) (doc d : addr) (h : Heap) :
  (ApplyFast p doc h).1 = Ok d → d = doc.
Proof.
  unfold ApplyFast. unfold_M. destruct (h !! doc) as [x|]; [|done].
  destruct (apply_ops _ p h) as [[pd'| |] h']; simpl; congruence.
Qed.

(** C8 (the code at the failing input). A [replace] with the empty path
    makes the loop go on with the new root, but [ApplyFast] returns the
    document it was given, which the operation has not touched. *)
Theorem root_replace_returns_original :
  let st := parsed (text.json "{'a':1}")
                   (text.json "[{'op':'replace','path':'','value':{'b':2}}]") in
  st.1 = Ok (3%nat, [mkOperation 6])
  ∧ value st.2 (mkOperation 6) = Some 9%nat
  ∧ apply_op (Some (fastdoc 3)) (mkOperation 6) st.2 = (Ok (Some (fastdoc 9)), st.2)
  ∧ ApplyFast [mkOperation 6] 3 st.2 = (Ok 3%nat, st.2)
  ∧ MarshalTo (depth st.2) st.2 9 = Some (text.json "{'b':2}")
  ∧ run (text.json "{'a':1}") (text.json "[{'op':'replace','path':'','value':{'b':2}}]")
    = Ok (text.json "{'a':1}").
Proof. repeat split; vm_compute; reflexivity. Qed.

(** ** Encoding a patch *)

(** C1 (the code at the failing input). A patch of two operations is
    decoded; [Marshal] writes the two objects one after the other with
    nothing between them, and the result is not JSON. *)
Theorem Marshal_two_operations_is_not_json :
  let buf := text.json "[{'op':'remove','path':'/a'},{'op':'remove','path':'/b'}]" in
  let st := DecodePatch buf heap0 in
  st.1 = Ok [mkOperation 4; mkOperation 7]
  ∧ Patch_Marshal st.2 [mkOperation 4; mkOperation 7]
    = Some (text.json "[{'op':'remove','path':'/a'}{'op':'remove','path':'/b'}]")
  ∧ text.parse (text.json "[{'op':'remove','path':'/a'}{'op':'remove','path':'/b'}]") = None
  ∧ text.parse buf
    = Some (JArray [JObject [("op", JString "remove"); ("path", JString "/a")];
                    JObject [("op", JString "remove"); ("path", JString "/b")]]).
Proof. repeat split; vm_compute; reflexivity. Qed.

(** ** A root that is not a container *)

Lemma root_container_scalar (doc : addr) (t : Type_) :
  t ≠ TypeObject → t ≠ TypeArray → root_container doc t = None.
Proof. by destruct t. Qed.

Lemma apply_op_nil (h : Heap) (op : Operation) (pointer : string) :
  first_pointer h op = Some pointer →
  nil_outcome pointer (apply_op None op h) h.
Proof.
  unfold first_pointer, apply_op, nil_outcome. unfold_M. intros Hptr.
  destruct (String.eqb (Kind h op) "add") eqn:Eadd; simpl in Hptr.
  { unfold Patch_add. unfold_M. rewrite Path_eq, Hptr, findObject_nil.
    destruct (_ <? 3)%nat; [by eexists|done]. }
  destruct (String.eqb (Kind h op) "remove") eqn:Eremove; simpl in Hptr.
  { unfold Patch_remove. unfold_M. rewrite Path_eq, Hptr, findObject_nil.
    destruct (_ <? 3)%nat; [by eexists|done]. }
  destruct (String.eqb (Kind h op) "replace") eqn:Ereplace.
  { unfold Patch_replace. unfold_M. rewrite Path_eq.
    destruct (getStringField h op "path") as [path|]; [|done].
    destruct (String.eqb path EmptyString); [done|]. injection Hptr as ->.
    rewrite findObject_nil. destruct (_ <? 3)%nat; [by eexists|done]. }
  destruct (String.eqb (Kind h op) "move") eqn:Emove; [|done].
  unfold Patch_move. unfold_M. rewrite From_eq, Hptr, findObject_nil.
  destruct (_ <? 3)%nat; [by eexists|done].
Qed.

(** C10 (amended). For a root that is neither an object nor an array,
    [ApplyFast] builds no container.  When the first operation is an
    [add], a [remove], a [replace] with a non-empty path or a [move],
    the pointer it resolves first ([path], or [from] for [move]) decides:
    with two or more reference tokens (three or more segments between
    the slashes) the nil container is dereferenced; with fewer,
    [ApplyFast] returns an error.  The document is not changed. *)
Theorem ApplyFast_scalar_root (h : Heap) (doc : addr) (x : Value) (op : Operation)
    (rest : Patch) (pointer : string) :
  h !! doc = Some x →
  v_t x ≠ TypeObject → v_t x ≠ TypeArray →
  first_pointer h op = Some pointer →
  root_container doc (v_t x) = None
  ∧ if (length (strings.Split pointer "/") <? 3)%nat
    then ∃ e, ApplyFast (op :: rest) doc h = (Err e, h)
    else ApplyFast (op :: rest) doc h = (Panic, h).
Proof.
  intros Hx Hobj Harr Hptr.
  pose proof (root_container_scalar doc (v_t x) Hobj Harr) as Hroot.
  split; [done|].
  pose proof (apply_op_nil h op pointer Hptr) as Hop. unfold nil_outcome in Hop.
  unfold ApplyFast. cbn [apply_ops]. unfold_M. rewrite Hx, Hroot.
  destruct (_ <? 3)%nat.
  - destruct Hop as [e ->]. by eexists.
  - by rewrite Hop.
Qed.

Lemma ApplyFast_scalar_root_witness :
  let st := parsed (text.json "'x'") (text.json "[{'op':'add','path':'/a/b','value':1}]") in
  st.1 = Ok (3%nat, [mkOperation 5])
  ∧ st.2 !! 3%nat = Some (scalar TypeString "x")
  ∧ first_pointer st.2 (mkOperation 5) = Some "/a/b"
  ∧ ApplyFast [mkOperation 5] 3 st.2 = (Panic, st.2).
Proof.
  intros st.
  assert (Hx : st.2 !! 3%nat = Some (scalar TypeString "x")) by reflexivity.
  assert (Hptr : first_pointer st.2 (mkOperation 5) = Some "/a/b") by reflexivity.
  split; [reflexivity|]. split; [exact Hx|]. split; [exact Hptr|].
  destruct (ApplyFast_scalar_root st.2 3 (scalar TypeString "x") (mkOperation 5) []
              "/a/b" Hx ltac:(discriminate) ltac:(discriminate) Hptr) as [_ H].
  exact H.
Defined.

(** C10 (counterexample). The root is a string and the first operation
    is an [add] whose path has one token: no panic, [ApplyFast] returns
    the "doc is missing path" error. *)
Lemma scalar_root_short_path_is_an_error :
  let st := parsed (text.json "'x'") (text.json "[{'op':'add','path':'/a','value':1}]") in
  st.1 = Ok (3%nat, [mkOperation 5])
  ∧ st.2 !! 3%nat = Some (scalar TypeString "x")
  ∧ Kind st.2 (mkOperation 5) = "add"
  ∧ ApplyFast [mkOperation 5] 3 st.2
    = (Err (Errorf "doc is missing path: %s" [ArgStr "/a"]), st.2).
Proof. repeat split; vm_compute; reflexivity. Qed.

(** ** The loop of [ApplyFast] *)

Lemma apply_ops_app (p1 p2 : Patch) :
  ∀ pd h,
    apply_ops pd (p1 ++ p2) h
    = match apply_ops pd p1 h with
      | (Ok pd1, h1) => apply_ops pd1 p2 h1
      | (Err e, h1) => (Err e, h1)
      | (Panic, h1) => (Panic, h1)
      end.
Proof.
  induction p1 as [|op p1 IH]; intros pd h; [done|].
  cbn [app apply_ops]. unfold_M.
  destruct (apply_op pd op h) as [[pd'|e|] h']; [apply IH|done..].
Qed.

(** C7. The operations are applied in list order: once the operations
    before [op] have been applied, [op] runs on the store and the root
    container they left.  If [op] returns an error (or panics),
    [ApplyFast] returns that error and the store is the one [op] left,
    whatever operations follow; if it succeeds, the rest of the list is
    applied to what it left. *)
Theorem ApplyFast_in_order_until_first_error (p1 p2 : Patch) (op : Operation)
    (doc : addr) (h : Heap) (x : Value) (pd1 : option container) (h1 : Heap) :
  h !! doc = Some x →
  apply_ops (root_container doc (v_t x)) p1 h = (Ok pd1, h1) →
  ApplyFast (p1 ++ op :: p2) doc h
  = match apply_op pd1 op h1 with
    | (Ok pd2, h2) =>
        match apply_ops pd2 p2 h2 with
        | (Ok _, h3) => (Ok doc, h3)
        | (Err e, h3) => (Err e, h3)
        | (Panic, h3) => (Panic, h3)
        end
    | (Err e, h2) => (Err e, h2)
    | (Panic, h2) => (Panic, h2)
    end.
Proof.
  intros Hx Hp1. unfold ApplyFast. unfold_M. rewrite Hx.
  rewrite apply_ops_app, Hp1. cbn [apply_ops]. unfold_M.
  destruct (apply_op pd1 op h1) as [[pd2|e|] h2]; [|done..].
  by destruct (apply_ops pd2 p2 h2) as [[pd3|e|] h3].
Qed.

Lemma ApplyFast_in_order_until_first_error_witness :
  let st := parsed (text.json "{'a':1}")
              (text.json "[{'op':'add','path':'/b','value':2},{'op':'bogus'},{'op':'add','path':'/c','value':3}]") in
  let after := ApplyFast [mkOperation 6; mkOperation 10; mkOperation 12] 3 st.2 in
  st.1 = Ok (3%nat, [mkOperation 6; mkOperation 10; mkOperation 12])
  ∧ after.1 = Err (Errorf "unexpected operation kind: %v" [ArgStr "bogus"])
  ∧ after.2 = (apply_op (Some (fastdoc 3)) (mkOperation 6) st.2).2
  ∧ MarshalTo (depth after.2) after.2 3 = Some (text.json "{'a':1,'b':2}").
Proof.
  intros st after.
  assert (Hx : st.2 !! 3%nat = Some (mkValue [("a", 4%nat)] [] EmptyString TypeObject))
    by reflexivity.
  pose proof (ApplyFast_in_order_until_first_error [mkOperation 6] [mkOperation 12]
                (mkOperation 10) 3 st.2 _ (Some (fastdoc 3))
                (apply_op (Some (fastdoc 3)) (mkOperation 6) st.2).2 Hx) as H.
  assert (Hafter : after = (Err (Errorf "unexpected operation kind: %v" [ArgStr "bogus"]),
                            (apply_op (Some (fastdoc 3)) (mkOperation 6) st.2).2)).
  { unfold after. etransitivity; [apply H; reflexivity|]. reflexivity. }
  split; [reflexivity|]. rewrite Hafter. split; [reflexivity|]. split; [reflexivity|].
  reflexivity.
Defined.

(** ** Parsed documents are laid out parent first *)

Lemma store_ok_nil (n : addr) (h : Heap) : store_ok n h [] n h.
Proof.
  split; [done|]. split; [done|]. split; [done|]. intros Hfresh. split; [done|].
  intros p x q Hp Hx. by rewrite Hfresh in Hx.
Qed.

Lemma store_ok_app (n n1 n2 : addr) (h h1 h2 : Heap) (R1 R2 : list addr) :
  store_ok n h R1 n1 h1 → store_ok n1 h1 R2 n2 h2 → store_ok n h (R1 ++ R2) n2 h2.
Proof.
  intros (Hn1 & HR1 & Hold1 & Hnew1) (Hn2 & HR2 & Hold2 & Hnew2).
  split; [lia|]. split; [|split].
  - apply Forall_app. split; [done|].
    eapply Forall_impl; [exact HR2|]. intros q [?|?]; [by left|right; lia].
  - intros p Hp. rewrite Hold2 by lia. by apply Hold1.
  - intros Hfresh. destruct (Hnew1 Hfresh) as [Hf1 Ho1].
    destruct (Hnew2 Hf1) as [Hf2 Ho2]. split; [done|].
    intros p x q Hp Hx Hq. destruct (decide (p < n1)%nat) as [Hlt|Hge].
    + rewrite Hold2 in Hx by done. by eapply Ho1.
    + eapply Ho2; [|done..]. lia.
Qed.

Lemma store_ok_literal (n : addr) (h : Heap) (q : addr) :
  (q < next0)%nat → store_ok n h [q] n h.
Proof.
  intros Hq. split; [done|]. split; [by apply Forall_singleton; left|].
  split; [done|]. intros Hfresh. split; [done|].
  intros p x q' Hp Hx. by rewrite Hfresh in Hx.
Qed.

Lemma store_ok_cell (n n' : addr) (h h1 : Heap) (R : list addr) (x : Value) :
  children x = R →
  store_ok (S n) h R n' h1 → store_ok n h [n] n' (<[n := x]> h1).
Proof.
  intros Hchildren (Hn & HR & Hold & Hnew).
  split; [lia|]. split; [by apply Forall_singleton; right|]. split.
  - intros p Hp. rewrite lookup_insert_ne by lia. apply Hold. lia.
  - intros Hfresh.
    assert (Hfresh' : fresh_above (S n) h) by (intros p Hp; apply Hfresh; lia).
    destruct (Hnew Hfresh') as [Hf Ho]. split.
    + intros p Hp. rewrite lookup_insert_ne by lia. by apply Hf.
    + intros p y q Hp Hy Hq. destruct (decide (p = n)) as [->|Hne].
      * rewrite lookup_insert_eq in Hy. injection Hy as <-.
        rewrite Hchildren in Hq.
        rewrite Forall_forall in HR. destruct (HR q Hq) as [?|?]; [by right|left; lia].
      * rewrite lookup_insert_ne in Hy by done. eapply Ho; [|done..]. lia.
Qed.

Lemma store_list_ok {A B : Type} (f : A → addr * Heap → B * (addr * Heap))
    (g : B → addr) (l : list A) :
  Forall (λ a, ∀ n h, store_ok n h [g (f a (n, h)).1] (f a (n, h)).2.1 (f a (n, h)).2.2) l →
  ∀ n h,
    store_ok n h (g <$> (store_list f l (n, h)).1)
             (store_list f l (n, h)).2.1 (store_list f l (n, h)).2.2.
Proof.
  induction 1 as [|a l Ha _ IH]; intros n h; simpl.
  - apply store_ok_nil.
  - specialize (Ha n h). destruct (f a (n, h)) as [b [n1 h1]]. simpl in *.
    specialize (IH n1 h1). destruct (store_list f l (n1, h1)) as [bs [n2 h2]]. simpl in *.
    exact (store_ok_app n n1 n2 h h1 h2 [g b] (g <$> bs) Ha IH).
Qed.

Lemma omap_id_Some {A} (l : list A) : omap id (Some <$> l) = l.
Proof. induction l as [|a l IH]; csimpl; [done|]. by rewrite IH. Qed.

Lemma store_store_ok (j : JSON) :
  ∀ n h, store_ok n h [(store j (n, h)).1] (store j (n, h)).2.1 (store j (n, h)).2.2.
Proof.
  induction j as [| | |raw|s|items IH|members IH] using JSON_nested_ind; intros n h.
  - simpl. apply store_ok_literal. unfold valueNull, next0. lia.
  - simpl. apply store_ok_literal. unfold valueTrue, next0. lia.
  - simpl. apply store_ok_literal. unfold valueFalse, next0. lia.
  - simpl. apply (store_ok_cell n (S n) h h []); [done|apply store_ok_nil].
  - simpl. apply (store_ok_cell n (S n) h h []); [done|apply store_ok_nil].
  - cbn [store fst snd].
    eapply store_ok_cell; [|apply (store_list_ok _ id)].
    + unfold children. simpl. rewrite app_nil_r, omap_id_Some. by rewrite list_fmap_id.
    + exact IH.
  - cbn [store fst snd].
    eapply store_ok_cell; [|apply (store_list_ok _ snd)].
    + unfold children. simpl. done.
    + eapply Forall_impl; [exact IH|]. intros [k j] Hj n' h'. simpl in *. apply Hj.
Qed.

Lemma lookup_lt_next_free (h : Heap) (p : addr) (x : Value) :
  h !! p = Some x → (p < next_free h)%nat.
Proof.
  intros Hp. unfold next_free.
  assert (p ∈ (map_to_list h).*1) as Hin.
  { apply list_elem_of_fmap. exists (p, x). split; [done|]. by apply elem_of_map_to_list. }
  by apply Nat.lt_succ_r, max_list_elem_of_le.
Qed.

Lemma fresh_above_next_free (h : Heap) : fresh_above (next_free h) h.
Proof.
  intros p Hp. destruct (h !! p) as [x|] eqn:E; [|done].
  apply lookup_lt_next_free in E. lia.
Qed.

(** Parsing keeps a store laid out, with its shared cells. *)
Lemma ParseBytes_laid_out (buf : string) (h h' : Heap) (r : res addr) :
  laid_out h → is_Some (h !! valueFalse) →
  ParseBytes buf h = (r, h') →
  laid_out h' ∧ is_Some (h' !! valueFalse).
Proof.
  intros [Hord Hscal] Hfalse. unfold ParseBytes.
  destruct (text.parse buf) as [j|]; [|by intros [= _ <-]].
  intros [= _ <-].
  destruct Hfalse as [xf Hxf].
  assert (Hn : (next0 ≤ next_free h)%nat).
  { apply lookup_lt_next_free in Hxf. unfold valueFalse, next0 in *. lia. }
  destruct (store_store_ok j (next_free h) h) as (_ & _ & Hold & Hnew).
  destruct (Hnew (fresh_above_next_free h)) as [_ Ho].
  split; [split|].
  - intros p x q Hp Hq. destruct (decide (p < next_free h)%nat) as [Hlt|Hge].
    + rewrite Hold in Hp by done. by eapply Hord.
    + eapply Ho; [|done..]. lia.
  - intros q y Hq Hy. rewrite Hold in Hy by lia. by eapply Hscal.
  - rewrite Hold; [by eexists|]. unfold valueFalse, next0 in *. lia.
Qed.

Lemma heap0_laid_out : laid_out heap0 ∧ is_Some (heap0 !! valueFalse).
Proof.
  split; [split|by eexists].
  - intros p x q Hp Hq. unfold heap0 in Hp.
    repeat (apply lookup_insert_Some in Hp as [[<- <-]|[_ Hp]]; [by inversion Hq|]).
    apply lookup_singleton_Some in Hp as [<- <-]. by inversion Hq.
  - intros q y Hq Hy. unfold heap0 in Hy.
    repeat (apply lookup_insert_Some in Hy as [[<- <-]|[_ Hy]]; [done|]).
    by apply lookup_singleton_Some in Hy as [<- <-].
Qed.

Lemma DecodePatch_loop_heap (patchOps : list ptr) :
  ∀ h, (DecodePatch_loop patchOps h).2 = h.
Proof.
  induction patchOps as [|[patchOp|] patchOps IH]; intros h; [done| |done].
  cbn [DecodePatch_loop]. unfold_M. destruct (h !! patchOp) as [x|]; [|done].
  destruct (decide _) as [Ht|Ht]; [|done].
  specialize (IH h). by destruct (DecodePatch_loop patchOps h) as [[p|err|] h'].
Qed.

Lemma parsed_laid_out (doc patch : string) (r : res (addr * Patch)) (h : Heap) :
  parsed doc patch = (r, h) → laid_out h.
Proof.
  unfold parsed, DecodePatch. unfold_M. intros Hparsed.
  destruct heap0_laid_out as [H0 Hf0].
  destruct (ParseBytes doc heap0) as [r1 h1] eqn:E1.
  destruct (ParseBytes_laid_out doc heap0 h1 r1 H0 Hf0 E1) as [H1 Hf1].
  destruct r1 as [d|e|]; [|by injection Hparsed as _ <-..].
  destruct (ParseBytes patch h1) as [r2 h2] eqn:E2.
  destruct (ParseBytes_laid_out patch h1 h2 r2 H1 Hf1 E2) as [H2 Hf2].
  destruct r2 as [parsed|e|]; [|by injection Hparsed as _ <-..].
  destruct (h2 !! parsed) as [x|]; [|by injection Hparsed as _ <-].
  destruct (decide _) as [Ht|Ht]; [|by injection Hparsed as _ <-].
  pose proof (DecodePatch_loop_heap (v_a x) h2) as Hh.
  destruct (DecodePatch_loop (v_a x) h2) as [[p|err|] h3]; simpl in Hh; subst h3;
    by injection Hparsed as _ <-.
Qed.

Lemma Object_Get_child (o : Object) (key : string) (q : addr) :
  Object_Get o key = Some q → q ∈ o.*2.
Proof.
  induction o as [|[k v] o IH]; simpl; [done|].
  destruct (String.eqb k key).
  - intros [= ->]. apply list_elem_of_here.
  - intros Hq. apply list_elem_of_further. by apply IH.
Qed.

Lemma get_child (h : Heap) (c : container) (key : string) (q : addr) :
  (get c key h).1 = Ok (Some q) →
  ∃ x, h !! cell c = Some x ∧ q ∈ children x.
Proof.
  destruct c as [d|arr]; simpl.
  - unfold fastdoc_get. unfold_M. destruct (h !! d) as [x|]; [|done].
    destruct (Object_Get (v_o x) key) as [v|] eqn:E; [|done].
    intros [= ->]. exists x. split; [done|].
    apply elem_of_app. right. by eapply Object_Get_child.
  - unfold fastarray_get, Get. unfold_M. simpl.
    destruct (h !! arr) as [x|]; [|done]. simpl. intros [= Hq].
    exists x. split; [done|]. unfold Value_Get in Hq. apply elem_of_app.
    destruct (v_t x); try done.
    + right. by eapply Object_Get_child.
    + left. destruct (index_in key _) as [n|]; [|done].
      destruct (v_a x !! n) as [[q'|]|] eqn:E; simpl in Hq; try done.
      injection Hq as ->. apply list_elem_of_omap. exists (Some q).
      split; [|done]. by eapply list_elem_of_lookup_2.
Qed.

(** In a store laid out parent first, the cells read on the way to a
    container come before it, so that the parent a pointer resolves to
    is not among the cells read while resolving it. *)
Lemma loop_reads_before (h : Heap) (parts : list string) :
  laid_out h →
  ∀ c lastkey dc key h',
    findObject_loop (Some c) parts lastkey h = (Ok (Some dc, key), h') →
    (cell c ≤ cell dc)%nat
    ∧ Forall (λ a, (a < cell dc)%nat) (loop_reads h (Some c) parts).
Proof.
  intros [Hord Hscal].
  induction parts as [|part parts IH]; intros c lastkey dc key h' Hfind.
  - cbn in Hfind. injection Hfind as -> _ _. split; [done|constructor].
  - cbn [findObject_loop loop_reads] in *. unfold_M.
    pose proof (get_child h c (decodePatchKey part)) as Hchild.
    pose proof (get_heap c (decodePatchKey part) h) as Hg.
    destruct (get c _ h) as [[[next|]|e|] h1]; simpl in *; subst h1; try done.
    destruct (Hchild next eq_refl) as (x & Hx & Hin).
    destruct (h !! next) as [y|] eqn:Hy; [|done]. simpl.
    assert (Hlt : v_t y = TypeObject ∨ v_t y = TypeArray → (cell c < next)%nat).
    { intros Hty. destruct (Hord _ _ _ Hx Hin) as [?|Hsmall]; [done|].
      destruct (Hscal _ _ Hsmall Hy). by destruct Hty. }
    destruct (v_t y) eqn:Ht; try done.
    + destruct (IH _ _ _ _ _ Hfind) as [Hle Hall]. simpl in Hle.
      specialize (Hlt (or_introl eq_refl)).
      split; [lia|]. constructor; [lia|done].
    + destruct (IH _ _ _ _ _ Hfind) as [Hle Hall]. simpl in Hle.
      specialize (Hlt (or_intror eq_refl)).
      split; [lia|]. constructor; [lia|done].
Qed.

Lemma laid_out_not_read (h : Heap) (pd : option container) (path : string)
    (dc : container) (key : string) :
  laid_out h → (findObject pd path h).1 = Ok (Some dc, key) →
  cell dc ∉ reads h pd path.
Proof.
  intros Hlaid. unfold findObject, reads.
  destruct (_ <? _)%nat; [done|].
  set (parts := take _ _). set (lastkey := List.last _ _). clearbody parts lastkey.
  intros Hfind Hin. destruct pd as [c|].
  - destruct (findObject_loop (Some c) parts lastkey h) as [r h'] eqn:E.
    simpl in Hfind. subst r.
    destruct (loop_reads_before h parts Hlaid _ _ _ _ _ E) as [_ Hall].
    rewrite Forall_forall in Hall. specialize (Hall _ Hin). lia.
  - by destruct parts.
Qed.

(** ** [move] *)

Lemma Object_Get_set_eq (o : Object) (key : string) (v : addr) :
  Object_Get (Object_set o key v) key = Some v.
Proof.
  induction o as [|[k w] o IH]; simpl.
  - by rewrite String.eqb_refl.
  - destruct (String.eqb k key) eqn:E; simpl; by rewrite E.
Qed.

Lemma Object_Get_set_keeps (o : Object) (key k1 : string) (v : addr) :
  Object_Get o k1 = Some v → Object_Get (Object_set o key v) k1 = Some v.
Proof.
  induction o as [|[k w] o IH]; simpl; [done|].
  destruct (String.eqb k key) eqn:E; simpl.
  - destruct (String.eqb k k1); [done|]. done.
  - destruct (String.eqb k k1); [done|]. apply IH.
Qed.

Lemma sublist_insert_at {A} (l : list A) (n : nat) (y : A) :
  l `sublist_of` take n l ++ y :: drop n l.
Proof.
  rewrite <- (take_drop n l) at 1.
  apply sublist_app; [done|]. by apply sublist_cons.
Qed.

Lemma lookup_insert_at {A} (l : list A) (n : nat) (y : A) :
  (n ≤ length l)%nat → (take n l ++ y :: drop n l) !! n = Some y.
Proof.
  intros Hn. rewrite lookup_app_r; rewrite length_take, Nat.min_l by lia; [|lia].
  by rewrite Nat.sub_diag.
Qed.

Lemma index_in_Some (key : string) (idx : Z) (len : nat) :
  strconv.Atoi key = Ok idx → 0 ≤ idx < Z.of_nat len →
  index_in key len = Some (Z.to_nat idx).
Proof.
  intros Hkey Hidx. unfold index_in. rewrite Hkey.
  destruct (Z.ltb_spec idx 0); [lia|].
  destruct (Z.leb_spec (Z.of_nat len) idx); [lia|done].
Qed.

(** What [add] at an insertable key does to the cell of the container. *)
Lemma add_insertable (h : Heap) (dc : container) (key : string) (v : addr) :
  wt h dc → insertable h dc key →
  ∃ f : Value → Value,
    add dc key (Some v) h = (Ok tt, update (cell dc) f h)
    ∧ (∀ x, v_t (f x) = v_t x)
    ∧ (∀ x k, Object_Get (v_o x) k = Some v → Object_Get (v_o (f x)) k = Some v)
    ∧ (∀ x, v_a x `sublist_of` v_a (f x))
    ∧ (∀ h', (f <$> h !! cell dc) = h' !! cell dc → (get dc key h').1 = Ok (Some v)).
Proof.
  intros (x & Hx & Ht) Hins. destruct dc as [d|arr]; simpl in *.
  - exists (λ x, set_o x (Object_Set (v_o x) key (Some v))).
    split; [done|]. split; [done|]. split; [|split].
    + intros y k. apply Object_Get_set_keeps.
    + done.
    + intros h' Hh'. rewrite Hx in Hh'. simpl in Hh'.
      unfold fastdoc_get. unfold_M. rewrite <- Hh'. simpl.
      unfold Object_Set. simpl. by rewrite Object_Get_set_eq.
  - destruct Hins as (x' & idx & Hx' & Hkey & Hidx).
    rewrite Hx in Hx'. injection Hx' as <-.
    exists (λ x, Value_InsertArrayItem x idx (Some v)).
    assert (String.eqb key "-" = false) as Hdash.
    { apply String.eqb_neq. intros ->. discriminate. }
    split; [|split; [|split; [|split]]].
    + unfold fastarray_add. rewrite Hdash. unfold_M.
      assert (getIndex key = Ok idx) as -> by (apply getIndex_Ok; split; [done|lia]).
      done.
    + intros y. unfold Value_InsertArrayItem. destruct (v_t y) eqn:E; try done.
      by destruct (_ <=? _).
    + intros y k. unfold Value_InsertArrayItem. destruct (v_t y); try done.
      by destruct (_ <=? _).
    + intros y. unfold Value_InsertArrayItem. destruct (v_t y); try done.
      destruct (_ <=? _); simpl; [by apply sublist_inserts_r|apply sublist_insert_at].
    + intros h' Hh'. rewrite Hx in Hh'. simpl in Hh'.
      unfold fastarray_get, Get. unfold_M. simpl. rewrite <- Hh'. simpl.
      unfold Value_Get, Value_InsertArrayItem. rewrite Ht.
      destruct (Z.leb_spec (Z.of_nat (length (v_a x))) idx) as [Hle|Hlt]; simpl; rewrite Ht.
      * assert (idx = Z.of_nat (length (v_a x))) as -> by lia.
        rewrite (index_in_Some key (Z.of_nat (length (v_a x)))); [|done|rewrite length_app; simpl; lia].
        rewrite Nat2Z.id. rewrite lookup_app_r by done. by rewrite Nat.sub_diag.
      * rewrite (index_in_Some key idx); [|done|].
        -- rewrite lookup_insert_at by lia. done.
        -- rewrite length_app, length_take. simpl. rewrite length_drop. lia.
Qed.

Lemma Object_Get_set_other (o : Object) (key k : string) (v : addr) :
  k ≠ key → Object_Get (Object_set o key v) k = Object_Get o k.
Proof.
  intros Hne. induction o as [|[k0 w] o IH]; simpl.
  - apply String.eqb_neq in Hne. rewrite String.eqb_sym in Hne. by rewrite Hne.
  - destruct (String.eqb_spec k0 key) as [->|Hk0]; simpl.
    + apply String.eqb_neq in Hne. rewrite String.eqb_sym in Hne. by rewrite Hne.
    + destruct (String.eqb k0 k); [done|apply IH].
Qed.

Lemma depth_update (h : Heap) (p : addr) (f : Value → Value) :
  depth (update p f h) = depth h.
Proof.
  unfold depth. destruct (h !! p) as [x|] eqn:Hx.
  - rewrite (update_Some h p f x Hx). by rewrite map_size_insert_Some.
  - rewrite update_id; [done|]. intros x' Hx'. by rewrite Hx in Hx'.
Qed.

Lemma mapM_ext_elem {A B} (f g : A → option B) (l : list A) :
  (∀ a, a ∈ l → f a = g a) → mapM f l = mapM g l.
Proof.
  induction l as [|a l IH]; intros Hfg; [done|].
  assert (mapM f l = mapM g l) as Heq.
  { apply IH. intros b Hb. apply Hfg. by apply list_elem_of_further. }
  cbn [mapM]. rewrite (Hfg a) by apply list_elem_of_here. by rewrite Heq.
Qed.

(** The printed form of a value does not depend on a cell outside
    it. *)
Lemma MarshalTo_outside (h : Heap) (q : addr) (f : Value → Value) (fuel : nat) :
  ∀ p, q ∉ inside fuel h p → MarshalTo fuel (update q f h) p = MarshalTo fuel h p.
Proof.
  induction fuel as [|fuel IH]; intros p Hq; [done|].
  cbn [MarshalTo inside] in *. apply not_elem_of_cons in Hq as [Hne Hq].
  assert (update q f h !! p = h !! p) as Hp
    by (unfold update; by rewrite lookup_alter_ne).
  rewrite Hp. destruct (h !! p) as [x|]; [|done]. csimpl.
  assert (Hchild : ∀ a, a ∈ children x → MarshalTo fuel (update q f h) a = MarshalTo fuel h a).
  { intros a Ha. apply IH. intros Hin. apply Hq. apply list_elem_of_bind. by exists a. }
  destruct (v_t x); try done.
  - rewrite (mapM_ext_elem
               (λ kv : string * addr,
                  v ← MarshalTo fuel (update q f h) kv.2;
                  Some (text.escapeString kv.1 +:+ ":" +:+ v))
               (λ kv : string * addr,
                  v ← MarshalTo fuel h kv.2;
                  Some (text.escapeString kv.1 +:+ ":" +:+ v))); [done|].
    intros [k a] Ha. simpl. rewrite Hchild; [done|].
    unfold children. apply elem_of_app. right.
    apply list_elem_of_fmap. by exists (k, a).
  - rewrite (mapM_ext_elem (λ e : ptr, e ≫= MarshalTo fuel (update q f h))
                           (λ e : ptr, e ≫= MarshalTo fuel h)); [done|].
    intros [a|] Ha; [|done]. simpl. apply Hchild.
    unfold children. apply elem_of_app. left.
    apply list_elem_of_omap. by exists (Some a).
Qed.

Lemma inside_unchanged (h : Heap) (q p a : addr) (f : Value → Value) (fuel : nat) :
  q ∉ inside fuel h p → a ∈ inside fuel h p → update q f h !! a = h !! a.
Proof.
  intros Hq Ha. unfold update. apply lookup_alter_ne. by intros ->.
Qed.

(** The containers of a walk are object and array cells. *)
Lemma loop_steps_wt (parts : list string) :
  ∀ doc h, wt_root h doc → Forall (λ s, wt h s.1) (loop_steps h doc parts).
Proof.
  induction parts as [|part parts IH]; intros doc h Hwt; [done|].
  cbn [loop_steps]. destruct doc as [c|]; [|done].
  apply Forall_cons. split; [done|].
  destruct (get c _ h) as [[[next|]|e|] h1]; simpl; try done.
  destruct (h !! next) as [x|] eqn:Hx; [|done]. simpl.
  destruct (v_t x) eqn:Ht; try done; apply IH; by exists x.
Qed.

(** Resolution goes the same way in two stores with the same kinds of
    cells in which every read of the walk has the same answer. *)
Lemma findObject_loop_agree (h h' : Heap) (parts : list string) :
  (∀ q, v_t <$> h' !! q = v_t <$> h !! q) →
  ∀ doc lastkey,
    Forall (λ s, (get s.1 s.2 h').1 = (get s.1 s.2 h).1) (loop_steps h doc parts) →
    (findObject_loop doc parts lastkey h').1 = (findObject_loop doc parts lastkey h).1.
Proof.
  intros Htypes. induction parts as [|part parts IH]; intros doc lastkey Hall; [done|].
  cbn [findObject_loop loop_steps] in *. destruct doc as [c|]; [|done].
  apply Forall_cons in Hall as [Hget Hall]. simpl in Hget.
  pose proof (get_heap c (decodePatchKey part) h) as Hg.
  pose proof (get_heap c (decodePatchKey part) h') as Hg'.
  unfold_M.
  destruct (get c _ h) as [r h1]; destruct (get c _ h') as [r' h1'].
  simpl in *. subst h1 h1' r'.
  destruct r as [[next|]|e|]; try done.
  specialize (Htypes next).
  destruct (h' !! next) as [x'|], (h !! next) as [x|]; simpl in Htypes; try done.
  injection Htypes as Ht. rewrite Ht.
  simpl in Hall. destruct (v_t x); try done; by apply IH.
Qed.

Lemma add_is_update (dc : container) (key : string) (val : ptr) (h h' : Heap) :
  add dc key val h = (Ok tt, h') → ∃ f, h' = update (cell dc) f h.
Proof.
  destruct dc as [d|arr]; simpl.
  - unfold fastdoc_add, fastdoc_set. unfold_M. intros [= <-]. by eexists.
  - unfold fastarray_add. destruct (String.eqb key "-"); unfold_M.
    + intros [= <-]. by eexists.
    + destruct (getIndex key) as [idx|e|]; [|done..]. intros [= <-]. by eexists.
Qed.

Lemma wt_same_cell (h : Heap) (c dc : container) :
  wt h c → wt h dc → cell c = cell dc → c = dc.
Proof.
  intros (x & Hx & Ht) (y & Hy & Hty) Heq. rewrite Heq, Hy in Hx. injection Hx as <-.
  destruct c, dc; simpl in *; subst; congruence.
Qed.

Lemma index_in_lt (t : string) (i : Z) (len len' : nat) :
  strconv.Atoi t = Ok i → i < Z.of_nat len → (len ≤ len')%nat →
  index_in t len' = index_in t len.
Proof.
  intros Ht Hi Hlen. unfold index_in. rewrite Ht.
  destruct (Z.ltb_spec i 0); [done|].
  destruct (Z.leb_spec (Z.of_nat len') i), (Z.leb_spec (Z.of_nat len) i); try lia. done.
Qed.

(** An element before the index of an insertion is read as before. *)
Lemma Value_Get_Insert_before (x : Value) (t : string) (i j : Z) (val : ptr) :
  v_t x = TypeArray → strconv.Atoi t = Ok i → i < j → j ≤ Z.of_nat (length (v_a x)) →
  Value_Get (Value_InsertArrayItem x j val) t = Value_Get x t.
Proof.
  intros Ht Hkey Hij Hj. unfold Value_Get, Value_InsertArrayItem. rewrite Ht.
  destruct (Z.leb_spec (Z.of_nat (length (v_a x))) j) as [Hle|Hlt]; simpl; rewrite Ht.
  - rewrite (index_in_lt t i (length (v_a x))); [|done|lia|rewrite length_app; simpl; lia].
    unfold index_in. rewrite Hkey. destruct (_ || _)%bool eqn:E; [done|].
    apply orb_false_iff in E as [E1 E2].
    apply Z.ltb_ge in E1. apply Z.leb_gt in E2.
    by rewrite lookup_app_l by lia.
  - rewrite (index_in_lt t i (length (v_a x)));
      [|done|lia|rewrite length_app, length_take; simpl; rewrite length_drop; lia].
    unfold index_in. rewrite Hkey. destruct (_ || _)%bool eqn:E; [done|].
    apply orb_false_iff in E as [E1 E2].
    apply Z.ltb_ge in E1. apply Z.leb_gt in E2.
    rewrite lookup_app_l by (rewrite length_take; lia).
    by rewrite lookup_take_lt by lia.
Qed.

(** A read that an [add] does not touch has the same answer after
    it. *)
Lemma get_after_add (h h' : Heap) (dc c : container) (key t : string) (v : addr) :
  wt h dc → wt h c → insertable h dc key →
  add dc key (Some v) h = (Ok tt, h') →
  untouched dc key (c, t) = true →
  (get c t h').1 = (get c t h).1.
Proof.
  intros Hwtd Hwtc Hins Hadd Hun.
  destruct (decide (cell c = cell dc)) as [Heq|Hne].
  2: { destruct (add_is_update _ _ _ _ _ Hadd) as [f ->]. by apply get_update_ne. }
  pose proof (wt_same_cell h c dc Hwtc Hwtd Heq) as ->.
  unfold untouched in Hun. cbn [fst snd] in Hun. rewrite Nat.eqb_refl in Hun.
  simpl in Hun. destruct Hwtd as (x & Hx & Ht).
  destruct dc as [d|arr]; simpl in *.
  - apply negb_true_iff, String.eqb_neq in Hun.
    unfold fastdoc_add, fastdoc_set, fastdoc_get in *. unfold_M.
    injection Hadd as <-. rewrite (update_Some _ _ _ x Hx), lookup_insert_eq, Hx.
    simpl. unfold Object_Set. rewrite Object_Get_set_other by done.
    by destruct (Object_Get (v_o x) t).
  - destruct Hins as (x' & j & Hx' & Hkey & Hj).
    rewrite Hx in Hx'. injection Hx' as <-.
    unfold index_before in Hun. rewrite Hkey in Hun.
    destruct (strconv.Atoi t) as [i| |] eqn:Hi; [|done..].
    apply Z.ltb_lt in Hun.
    assert (String.eqb key "-" = false) as Hdash.
    { apply String.eqb_neq. intros ->. discriminate. }
    unfold fastarray_add in Hadd. rewrite Hdash in Hadd. unfold_M.
    assert (getIndex key = Ok j) as Hidx by (apply getIndex_Ok; split; [done|lia]).
    rewrite Hidx in Hadd. injection Hadd as <-.
    unfold fastarray_get, Get. unfold_M. simpl.
    rewrite (update_Some _ _ _ x Hx), lookup_insert_eq, Hx. simpl.
    by rewrite (Value_Get_Insert_before x t i j) by (done || lia).
Qed.

(** The final read of the source after the [add]. *)
Lemma source_after_add (h h' : Heap) (dc sc : container) (key k1 : string) (v : addr) :
  wt h dc → wt h sc → insertable h dc key →
  add dc key (Some v) h = (Ok tt, h') →
  (get sc k1 h).1 = Ok (Some v) →
  source_stays dc key sc k1 = true →
  (get sc k1 h').1 = Ok (Some v).
Proof.
  intros Hwtd Hwts Hins Hadd Hval Hstay.
  destruct (decide (cell sc = cell dc)) as [Heq|Hne].
  2: { destruct (add_is_update _ _ _ _ _ Hadd) as [f ->].
       by rewrite get_update_ne. }
  pose proof (wt_same_cell h sc dc Hwts Hwtd Heq) as ->.
  unfold source_stays in Hstay. rewrite Nat.eqb_refl in Hstay. simpl in Hstay.
  destruct Hwtd as (x & Hx & Ht).
  destruct dc as [d|arr]; simpl in *.
  - unfold fastdoc_add, fastdoc_set, fastdoc_get in *. unfold_M.
    injection Hadd as <-. rewrite Hx in Hval.
    rewrite (update_Some _ _ _ x Hx), lookup_insert_eq. simpl.
    destruct (Object_Get (v_o x) k1) as [w|] eqn:Eget; [|done].
    injection Hval as ->. unfold Object_Set.
    by rewrite (Object_Get_set_keeps _ _ _ _ Eget).
  - destruct Hins as (x' & j & Hx' & Hkey & Hj).
    rewrite Hx in Hx'. injection Hx' as <-.
    unfold index_before in Hstay. rewrite Hkey in Hstay.
    destruct (strconv.Atoi k1) as [i| |] eqn:Hi; [|done..].
    apply Z.leb_le in Hstay.
    assert (String.eqb key "-" = false) as Hdash.
    { apply String.eqb_neq. intros ->. discriminate. }
    unfold fastarray_add in Hadd. rewrite Hdash in Hadd. unfold_M.
    assert (getIndex key = Ok j) as Hidx by (apply getIndex_Ok; split; [done|lia]).
    rewrite Hidx in Hadd. injection Hadd as <-.
    unfold fastarray_get, Get in *. unfold_M. simpl in *.
    rewrite Hx in Hval. simpl in Hval.
    rewrite (update_Some _ _ _ x Hx), lookup_insert_eq. simpl.
    destruct (Z.eq_dec i j) as [->|Hij].
    + (* the value is inserted at the index of the source *)
      injection Hval as Hval. unfold Value_Get in Hval. rewrite Ht in Hval.
      unfold index_in in Hval. rewrite Hi in Hval.
      destruct (_ || _)%bool eqn:E; [done|].
      apply orb_false_iff in E as [E1 E2].
      apply Z.ltb_ge in E1. apply Z.leb_gt in E2.
      unfold Value_Get, Value_InsertArrayItem. rewrite Ht.
      destruct (Z.leb_spec (Z.of_nat (length (v_a x))) j); [lia|]. simpl. rewrite Ht.
      rewrite (index_in_Some k1 j); [|done|].
      * by rewrite lookup_insert_at by lia.
      * rewrite length_app, length_take. simpl. rewrite length_drop. lia.
    + by rewrite (Value_Get_Insert_before x k1 i j) by (done || lia).
Qed.

Lemma findObject_agree (h h' : Heap) (pd : option container) (path : string) :
  (∀ q, v_t <$> h' !! q = v_t <$> h !! q) →
  Forall (λ s, (get s.1 s.2 h').1 = (get s.1 s.2 h).1) (steps h pd path) →
  (findObject pd path h').1 = (findObject pd path h).1.
Proof.
  intros Htypes Hall. unfold findObject, steps in *.
  destruct (_ <? _)%nat; [done|]. by apply findObject_loop_agree.
Qed.

(** C2 (amended). A [move] from [p1], where there is a value, to [p2],
    whose final token is a member name of an object or an index up to
    the length of an array, when
    - the parent of [p2] is not met on the way to it (as in every parsed
      document),
    - the parent of [p2] is not the value moved, nor inside it, and
    - what the [add] at [p2] writes or shifts is not read by [p1]: no
      read on the way to the parent of [p1] is touched, and the final
      read of [p1] stays:
    the operation succeeds; reading [p2] afterwards gives the value that
    was at [p1], with every cell of it as it was and the same printed
    form; and the value is not removed: reading [p1] afterwards still
    gives it. *)
Theorem Patch_move_adds_without_removing (h : Heap) (doc : option container)
    (op : Operation) (p1 p2 : string) (sc dc : container) (k1 k2 : string) (v : addr) :
  wt_root h doc →
  getStringField h op "from" = Some p1 →
  getStringField h op "path" = Some p2 →
  (findObject doc p1 h).1 = Ok (Some sc, k1) →
  (get sc k1 h).1 = Ok (Some v) →
  (findObject doc p2 h).1 = Ok (Some dc, k2) →
  insertable h dc k2 →
  cell dc ∉ reads h doc p2 →
  cell dc ∉ inside (depth h) h v →
  forallb (untouched dc k2) (steps h doc p1) = true →
  source_stays dc k2 sc k1 = true →
  ∃ h',
    Patch_move doc op h = (Ok doc, h')
    ∧ (at_pointer doc p2 h').1 = Ok (Some v)
    ∧ (∀ a, a ∈ inside (depth h) h v → h' !! a = h !! a)
    ∧ MarshalTo (depth h') h' v = MarshalTo (depth h) h v
    ∧ (at_pointer doc p1 h').1 = Ok (Some v).
Proof.
  intros Hwt Hfrom Hpath Hsrc Hval Hdst Hins Hreads Hinside Hsteps Hstay.
  pose proof (findObject_heap doc p1 h) as Hh1.
  pose proof (findObject_heap doc p2 h) as Hh2.
  pose proof (get_heap sc k1 h) as Hh3.
  assert (Hwtd : wt h dc).
  { destruct (findObject doc p2 h) as [r h0] eqn:E. simpl in *. subst.
    by eapply findObject_wt. }
  assert (Hwts : wt h sc).
  { destruct (findObject doc p1 h) as [r h0] eqn:E. simpl in *. subst.
    by eapply findObject_wt. }
  destruct (add_insertable h dc k2 v Hwtd Hins) as (f & Hadd & Hft & _ & _ & Hfget).
  exists (update (cell dc) f h). split; [|split; [|split; [|split]]].
  - unfold Patch_move. unfold_M. rewrite From_eq, Hfrom.
    destruct (findObject doc p1 h) as [r1 h1]. simpl in *. subst r1 h1.
    destruct (get sc k1 h) as [r3 h3]. simpl in *. subst r3 h3.
    rewrite Path_eq, Hpath.
    destruct (findObject doc p2 h) as [r2 h2]. simpl in *. subst r2 h2.
    by rewrite Hadd.
  - unfold at_pointer. unfold_M.
    pose proof (findObject_update (cell dc) f doc p2 h Hft Hreads) as Hsame.
    pose proof (findObject_heap doc p2 (update (cell dc) f h)) as Hh'.
    destruct (findObject doc p2 (update (cell dc) f h)) as [r h0].
    simpl in *. subst h0. rewrite Hsame, Hdst.
    apply Hfget. unfold update. by rewrite lookup_alter_eq.
  - intros a Ha. by eapply inside_unchanged.
  - rewrite depth_update. by apply MarshalTo_outside.
  - unfold at_pointer. unfold_M.
    assert (Hsame : (findObject doc p1 (update (cell dc) f h)).1 = (findObject doc p1 h).1).
    { apply findObject_agree; [intros q; by apply lookup_update_type|].
      pose proof (loop_steps_wt
                    (take (length (strings.Split p1 "/") - 2) (drop 1 (strings.Split p1 "/")))
                    doc h Hwt) as Hwts'.
      unfold steps in *. rewrite List.forallb_forall in Hsteps.
      rewrite Forall_forall in *. intros [c t] Hs.
      apply (get_after_add h _ dc c k2 t v); try done.
      - by apply (Hwts' (c, t)).
      - apply (Hsteps (c, t)). by apply list_elem_of_In. }
    pose proof (findObject_heap doc p1 (update (cell dc) f h)) as Hh'.
    destruct (findObject doc p1 (update (cell dc) f h)) as [r h0].
    simpl in *. subst h0. rewrite Hsame, Hsrc.
    by apply (source_after_add h _ dc sc k2 k1 v).
Qed.

Lemma Patch_move_adds_without_removing_witness :
  let st := parsed (text.json "{'a':{'b':{'x':[1]}},'c':{}}")
                   (text.json "[{'op':'move','from':'/a/b','path':'/c/d'}]") in
  st.1 = Ok (3%nat, [mkOperation 10])
  ∧ (at_pointer (Some (fastdoc 3)) "/a/b" st.2).1 = Ok (Some 5%nat)
  ∧ ∃ h', Patch_move (Some (fastdoc 3)) (mkOperation 10) st.2 = (Ok (Some (fastdoc 3)), h')
          ∧ (at_pointer (Some (fastdoc 3)) "/c/d" h').1 = Ok (Some 5%nat)
          ∧ MarshalTo (depth h') h' 5 = Some (text.json "{'x':[1]}")
          ∧ (at_pointer (Some (fastdoc 3)) "/a/b" h').1 = Ok (Some 5%nat)
          ∧ MarshalTo (depth h') h' 3
            = Some (text.json "{'a':{'b':{'x':[1]}},'c':{'d':{'x':[1]}}}").
Proof.
  intros st. split; [reflexivity|]. split; [reflexivity|].
  destruct (Patch_move_adds_without_removing st.2 (Some (fastdoc 3)) (mkOperation 10)
              "/a/b" "/c/d" (fastdoc 4) (fastdoc 8) "b" "d" 5%nat)
    as (h' & Hmove & Hdst & _ & Hprint & Hsrc).
  - eexists. split; reflexivity.
  - reflexivity.
  - reflexivity.
  - reflexivity.
  - reflexivity.
  - reflexivity.
  - exact I.
  - assert (Hreads : reads st.2 (Some (fastdoc 3)) "/c/d" = [3%nat]) by reflexivity.
    rewrite Hreads. intros Hin. apply list_elem_of_singleton in Hin. discriminate.
  - assert (Hinside : inside (depth st.2) st.2 5 = [5; 6; 7]%nat) by reflexivity.
    rewrite Hinside. simpl. intros Hin.
    repeat (apply elem_of_cons in Hin as [Hin|Hin]; [discriminate|]).
    by apply elem_of_nil in Hin.
  - reflexivity.
  - reflexivity.
  - exists h'. split; [exact Hmove|]. split; [exact Hdst|].
    split; [rewrite Hprint; reflexivity|]. split; [exact Hsrc|].
    change h' with (Ok (Some (fastdoc 3)), h').2. rewrite <- Hmove. reflexivity.
Defined.

(** C2 (counterexamples). Successful moves on parsed documents that do
    not do what the claim says, one for each condition of the amended
    statement.
    - To [/arr/-]: the value is appended, it is at [/arr/1], and
      reading [/arr/-] gives nothing.
    - From [/a] to [/a/b], into the value moved: [/a/b] is the cell
      that was at [/a], but that cell now holds itself and the document
      has no printed form.
    - From [/a/b] to [/a], over the parent of the source: the value is
      at [/a] and nothing is at [/a/b] any more.
    - From [/1] to [/0] in an array: the elements move up, and [/1] now
      reads another value.
    - From [/arr/5], beyond the array: [get] returns nil and no error,
      the move succeeds and [/x] is null. *)
Lemma move_does_not_always_copy_and_keep :
  (let st := parsed (text.json "{'arr':[1],'x':2}")
                    (text.json "[{'op':'move','from':'/x','path':'/arr/-'}]") in
   let after := ApplyFast [mkOperation 8] 3 st.2 in
   st.1 = Ok (3%nat, [mkOperation 8])
   ∧ (at_pointer (Some (fastdoc 3)) "/x" st.2).1 = Ok (Some 6%nat)
   ∧ after.1 = Ok 3%nat
   ∧ (at_pointer (Some (fastdoc 3)) "/arr/-" after.2).1 = Ok None
   ∧ (at_pointer (Some (fastdoc 3)) "/arr/1" after.2).1 = Ok (Some 6%nat)
   ∧ MarshalTo (depth after.2) after.2 3 = Some (text.json "{'arr':[1,2],'x':2}"))
  ∧ (let st := parsed (text.json "{'a':{}}")
                      (text.json "[{'op':'move','from':'/a','path':'/a/b'}]") in
     let after := ApplyFast [mkOperation 6] 3 st.2 in
     st.1 = Ok (3%nat, [mkOperation 6])
     ∧ (at_pointer (Some (fastdoc 3)) "/a" st.2).1 = Ok (Some 4%nat)
     ∧ MarshalTo (depth st.2) st.2 4 = Some (text.json "{}")
     ∧ after.1 = Ok 3%nat
     ∧ (at_pointer (Some (fastdoc 3)) "/a/b" after.2).1 = Ok (Some 4%nat)
     ∧ MarshalTo (depth after.2) after.2 4 = None
     ∧ MarshalTo (depth after.2) after.2 3 = None)
  ∧ (let st := parsed (text.json "{'a':{'b':1}}")
                      (text.json "[{'op':'move','from':'/a/b','path':'/a'}]") in
     let after := ApplyFast [mkOperation 7] 3 st.2 in
     st.1 = Ok (3%nat, [mkOperation 7])
     ∧ (at_pointer (Some (fastdoc 3)) "/a/b" st.2).1 = Ok (Some 5%nat)
     ∧ after.1 = Ok 3%nat
     ∧ (at_pointer (Some (fastdoc 3)) "/a" after.2).1 = Ok (Some 5%nat)
     ∧ (at_pointer (Some (fastdoc 3)) "/a/b" after.2).1 = Ok None
     ∧ MarshalTo (depth after.2) after.2 3 = Some (text.json "{'a':1}"))
  ∧ (let st := parsed (text.json "[1,2]")
                      (text.json "[{'op':'move','from':'/1','path':'/0'}]") in
     let after := ApplyFast [mkOperation 7] 3 st.2 in
     st.1 = Ok (3%nat, [mkOperation 7])
     ∧ (at_pointer (Some (fastarray 3)) "/1" st.2).1 = Ok (Some 5%nat)
     ∧ after.1 = Ok 3%nat
     ∧ (at_pointer (Some (fastarray 3)) "/0" after.2).1 = Ok (Some 5%nat)
     ∧ (at_pointer (Some (fastarray 3)) "/1" after.2).1 = Ok (Some 4%nat)
     ∧ MarshalTo (depth after.2) after.2 3 = Some (text.json "[2,1,2]"))
  ∧ (let st := parsed (text.json "{'arr':[1]}")
                      (text.json "[{'op':'move','from':'/arr/5','path':'/x'}]") in
     let after := ApplyFast [mkOperation 7] 3 st.2 in
     st.1 = Ok (3%nat, [mkOperation 7])
     ∧ (at_pointer (Some (fastdoc 3)) "/arr/5" st.2).1 = Ok None
     ∧ after.1 = Ok 3%nat
     ∧ (at_pointer (Some (fastdoc 3)) "/x" after.2).1 = Ok (Some valueNull)
     ∧ MarshalTo (depth after.2) after.2 3 = Some (text.json "{'arr':[1],'x':null}")).
Proof. repeat split; vm_compute; reflexivity. Qed.

(** * Further properties *)

(** ** Tokens *)

Lemma decode_scan_no_tilde (k : string) :
  contains_char "~" k = false → decode_scan k = k.
Proof.
  induction k as [|c k IH]; [done|]. cbn [contains_char decode_scan].
  destruct (Ascii.eqb c "~"); [done|]. simpl. intros Hk. by rewrite IH.
Qed.

(** X1. A token without [~] is its own decoding: plain member names and
    indices reach the containers as they are written. *)
Theorem decodePatchKey_plain_token (k : string) :
  contains_char "~" k = false → decodePatchKey k = k.
Proof.
  intros Hk. unfold decodePatchKey, strings.Replace.
  rewrite (replace_from_scan (String.length k)) by lia.
  by apply decode_scan_no_tilde.
Qed.

Lemma decodePatchKey_plain_token_witness :
  contains_char "~" "biscuits" = false ∧ decodePatchKey "biscuits" = "biscuits".
Proof.
  split; [reflexivity|]. apply decodePatchKey_plain_token. reflexivity.
Defined.

Lemma decode_scan_encode (k : string) : decode_scan (encodePatchKey k) = k.
Proof.
  induction k as [|c k IH]; [done|]. cbn [encodePatchKey].
  destruct (Ascii.eqb_spec c "~") as [->|Htilde].
  { cbn. by rewrite IH. }
  destruct (Ascii.eqb_spec c "/") as [->|Hslash].
  { cbn. by rewrite IH. }
  cbn [decode_scan]. apply Ascii.eqb_neq in Htilde. rewrite Htilde. by rewrite IH.
Qed.

Lemma decodePatchKey_encode (k : string) : decodePatchKey (encodePatchKey k) = k.
Proof.
  unfold decodePatchKey, strings.Replace.
  rewrite (replace_from_scan (String.length (encodePatchKey k))) by lia.
  apply decode_scan_encode.
Qed.

Lemma encodePatchKey_no_slash (k : string) :
  contains_char "/" (encodePatchKey k) = false.
Proof.
  induction k as [|c k IH]; [done|]. cbn [encodePatchKey].
  destruct (Ascii.eqb_spec c "~") as [->|Htilde]; [cbn; exact IH|].
  destruct (Ascii.eqb_spec c "/") as [->|Hslash]; [cbn; exact IH|].
  cbn [contains_char]. apply Ascii.eqb_neq in Hslash. by rewrite Hslash.
Qed.

(** X2. [decodePatchKey] undoes the escaping of RFC 6901: whatever the
    member name, with [~] and [/] in it or not, the escaped token
    decodes to the name, and the escaped token has no [/] in it. *)
Theorem decodePatchKey_encodePatchKey (k : string) :
  decodePatchKey (encodePatchKey k) = k
  ∧ contains_char "/" (encodePatchKey k) = false.
Proof. split; [apply decodePatchKey_encode|apply encodePatchKey_no_slash]. Qed.

(** ** The shape of a pointer *)

Lemma Split_nonempty (s : string) (sep : ascii) : strings.Split s sep ≠ [].
Proof.
  induction s as [|c s IH]; simpl; [done|].
  destruct (Ascii.eqb c sep); [done|]. by destruct (strings.Split s sep).
Qed.

Lemma Split_no_sep (s : string) (sep : ascii) :
  contains_char sep s = false → strings.Split s sep = [s].
Proof.
  induction s as [|c s IH]; simpl; [done|].
  destruct (Ascii.eqb c sep); [done|]. simpl. intros Hs. by rewrite IH.
Qed.

Lemma Split_app_sep (s rest : string) (sep : ascii) :
  contains_char sep s = false →
  strings.Split (s +:+ String sep rest) sep = s :: strings.Split rest sep.
Proof.
  induction s as [|c s IH]; intros Hs.
  - simpl. by rewrite Ascii.eqb_refl.
  - change (strings.Split (String c (s +:+ String sep rest)) sep
            = String c s :: strings.Split rest sep).
    simpl in *. destruct (Ascii.eqb c sep); [done|]. simpl in Hs. by rewrite IH.
Qed.

Lemma Split_sep_head (rest : string) (sep : ascii) :
  strings.Split (String sep rest) sep = EmptyString :: strings.Split rest sep.
Proof. simpl. by rewrite Ascii.eqb_refl. Qed.

Lemma last_cons_nonempty {A} (x d : A) (l : list A) :
  l ≠ [] → List.last (x :: l) d = List.last l d.
Proof. by destruct l. Qed.

(** X3. Pointers that are not of the form [/token/.../token].  A
    pointer with no [/] in it resolves to no container.  In a pointer
    that has one, whatever stands before the first [/] is dropped
    without a look: [a/b] resolves as [/b] does. *)
Theorem findObject_malformed_pointer (pd : option container) (s rest : string) (h : Heap) :
  contains_char "/" s = false →
  findObject pd s h = (Ok (None, EmptyString), h)
  ∧ findObject pd (s +:+ String "/" rest) h = findObject pd (String "/" rest) h.
Proof.
  intros Hs. split.
  - unfold findObject. by rewrite Split_no_sep.
  - unfold findObject.
    rewrite (Split_app_sep s rest "/" Hs), Split_sep_head.
    cbn [length drop]. pose proof (Split_nonempty rest "/") as Hne.
    by rewrite !last_cons_nonempty.
Qed.

Lemma findObject_malformed_pointer_witness :
  contains_char "/" "a" = false
  ∧ findObject (Some (fastdoc 3)) "a" heap0 = (Ok (None, EmptyString), heap0)
  ∧ findObject (Some (fastdoc 3)) "a/b" heap0 = findObject (Some (fastdoc 3)) "/b" heap0.
Proof.
  split; [reflexivity|].
  exact (findObject_malformed_pointer (Some (fastdoc 3)) "a" "b" heap0 eq_refl).
Defined.

(** X4. Every member name can be addressed: the pointer made of [/] and
    the escaped name resolves to the root container with the name
    itself as the final key, whatever characters the name has. *)
Theorem findObject_escaped_name (pd : option container) (k : string) (h : Heap) :
  findObject pd (String "/" (encodePatchKey k)) h = (Ok (pd, k), h).
Proof.
  unfold findObject.
  rewrite Split_sep_head, (Split_no_sep _ _ (encodePatchKey_no_slash k)).
  cbn. unfold ret. by rewrite decodePatchKey_encode.
Qed.

(** ** Objects: [fastdoc] *)

Lemma Object_set_keys (o : Object) (key : string) (v : addr) :
  (Object_set o key v).*1
  = if bool_decide (key ∈ o.*1) then o.*1 else o.*1 ++ [key].
Proof.
  induction o as [|[k0 w] o IH]; cbn [Object_set].
  - case_bool_decide as Hin; [by apply elem_of_nil in Hin|done].
  - rewrite fmap_cons. cbn [fst].
    destruct (String.eqb_spec k0 key) as [->|Hk0].
    + rewrite fmap_cons. cbn [fst].
      by rewrite bool_decide_eq_true_2 by apply list_elem_of_here.
    + rewrite fmap_cons, IH. cbn [fst].
      destruct (bool_decide (key ∈ o.*1)) eqn:E.
      * apply bool_decide_eq_true in E.
        by rewrite bool_decide_eq_true_2 by by apply list_elem_of_further.
      * apply bool_decide_eq_false in E.
        rewrite bool_decide_eq_false_2; [done|].
        apply not_elem_of_cons. split; [by apply not_eq_sym|done].
Qed.

Lemma Object_Get_Del_other (o : Object) (key k : string) :
  k ≠ key → Object_Get (Object_Del o key) k = Object_Get o k.
Proof.
  intros Hne. induction o as [|[k0 w] o IH]; simpl; [done|].
  destruct (String.eqb_spec k0 key) as [->|Hk0]; simpl.
  - apply String.eqb_neq in Hne. rewrite String.eqb_sym in Hne. by rewrite Hne.
  - destruct (String.eqb k0 k); [done|apply IH].
Qed.

Lemma Object_Get_None (o : Object) (key : string) :
  key ∉ o.*1 → Object_Get o key = None.
Proof.
  induction o as [|[k0 w] o IH]; simpl; [done|].
  intros Hnotin. apply not_elem_of_cons in Hnotin as [Hne Hnotin].
  destruct (String.eqb_spec k0 key) as [->|_]; [done|by apply IH].
Qed.

Lemma Object_Get_Del_same (o : Object) (key : string) :
  NoDup o.*1 → Object_Get (Object_Del o key) key = None.
Proof.
  induction o as [|[k0 w] o IH]; simpl; [done|].
  intros Hnodup. apply NoDup_cons in Hnodup as [Hnotin Hnodup].
  destruct (String.eqb_spec k0 key) as [->|Hk0]; simpl.
  - by apply Object_Get_None.
  - apply String.eqb_neq in Hk0. rewrite Hk0. by apply IH.
Qed.

(** X5. On an object, [add] (and [set], which it calls) always
    succeeds, and the member can be read back: [get] with the same key
    returns the value added ([valueNull] for a nil value), [get] with
    any other key answers as before, and no other cell changes. *)
Theorem fastdoc_add_then_get (h : Heap) (d : addr) (x : Value) (key : string) (val : ptr) :
  h !! d = Some x →
  ∃ h',
    fastdoc_add d key val h = (Ok tt, h')
    ∧ fastdoc_set d key val h = (Ok tt, h')
    ∧ fastdoc_get d key h' = (Ok (Some (default valueNull val)), h')
    ∧ (∀ k, k ≠ key → (fastdoc_get d k h').1 = (fastdoc_get d k h).1)
    ∧ (∀ p, p ≠ d → h' !! p = h !! p).
Proof.
  intros Hx. exists (<[d := set_o x (Object_Set (v_o x) key val)]> h).
  unfold fastdoc_add, fastdoc_set, fastdoc_get. unfold_M.
  rewrite (update_Some _ _ _ x Hx). split; [done|]. split; [done|]. split; [|split].
  - rewrite lookup_insert_eq. simpl. unfold Object_Set. by rewrite Object_Get_set_eq.
  - intros k Hk. rewrite lookup_insert_eq, Hx. simpl. unfold Object_Set.
    rewrite Object_Get_set_other by done. by destruct (Object_Get (v_o x) k).
  - intros p Hp. by rewrite lookup_insert_ne.
Qed.

Lemma fastdoc_add_then_get_witness :
  let st := ParseBytes (text.json "{'foo':'bar'}") heap0 in
  ∃ h', fastdoc_add 3 "baz" (Some valueTrue) st.2 = (Ok tt, h')
        ∧ fastdoc_get 3 "baz" h' = (Ok (Some valueTrue), h')
        ∧ (fastdoc_get 3 "foo" h').1 = Ok (Some 4%nat).
Proof.
  intros st.
  destruct (fastdoc_add_then_get st.2 3 (mkValue [("foo", 4%nat)] [] EmptyString TypeObject)
              "baz" (Some valueTrue) eq_refl) as (h' & Hadd & _ & Hget & Hother & _).
  exists h'. split; [exact Hadd|]. split; [exact Hget|].
  rewrite (Hother "foo") by discriminate. reflexivity.
Defined.

(** X6. [add] on an object never reorders or drops members: a key that
    the object has keeps its place (its value is overwritten), and a
    new key goes after all the others. *)
Theorem fastdoc_add_key_order (h : Heap) (d : addr) (x : Value) (key : string) (val : ptr) :
  h !! d = Some x →
  ∃ x', (fastdoc_add d key val h).2 !! d = Some x'
        ∧ (v_o x').*1 = (if bool_decide (key ∈ (v_o x).*1) then (v_o x).*1
                         else (v_o x).*1 ++ [key])
        ∧ v_a x' = v_a x ∧ v_t x' = v_t x ∧ v_s x' = v_s x.
Proof.
  intros Hx. unfold fastdoc_add, fastdoc_set. unfold_M. simpl.
  rewrite (update_Some _ _ _ x Hx), lookup_insert_eq.
  eexists. split; [done|]. simpl. unfold Object_Set. by rewrite Object_set_keys.
Qed.

Lemma fastdoc_add_key_order_witness :
  let st := ParseBytes (text.json "{'foo':1,'bar':2}") heap0 in
  ∃ x', (fastdoc_add 3 "foo" (Some valueTrue) st.2).2 !! 3%nat = Some x'
        ∧ (v_o x').*1 = ["foo"; "bar"].
Proof.
  intros st.
  destruct (fastdoc_add_key_order st.2 3
              (mkValue [("foo", 4%nat); ("bar", 5%nat)] [] EmptyString TypeObject)
              "foo" (Some valueTrue) eq_refl) as (x' & Hx' & Hkeys & _).
  exists x'. split; [exact Hx'|]. rewrite Hkeys. reflexivity.
Defined.

(** X7. On an object whose member names are distinct, [remove] takes
    the member away: it returns no error, [get] with that key then
    fails with "missing key", [get] with any other key answers as
    before, and no other cell changes. *)
Theorem fastdoc_remove_then_get (h : Heap) (d : addr) (x : Value) (key : string) :
  h !! d = Some x →
  NoDup (v_o x).*1 →
  ∃ h',
    fastdoc_remove d key h = (Ok tt, h')
    ∧ fastdoc_get d key h' = (Err (Errorf "missing key %v" [ArgStr key]), h')
    ∧ (∀ k, k ≠ key → (fastdoc_get d k h').1 = (fastdoc_get d k h).1)
    ∧ (∀ p, p ≠ d → h' !! p = h !! p).
Proof.
  intros Hx Hnodup. exists (<[d := set_o x (Object_Del (v_o x) key)]> h).
  unfold fastdoc_remove, fastdoc_get. unfold_M.
  rewrite (update_Some _ _ _ x Hx). split; [done|]. split; [|split].
  - rewrite lookup_insert_eq. simpl. by rewrite Object_Get_Del_same.
  - intros k Hk. rewrite lookup_insert_eq, Hx. simpl.
    rewrite Object_Get_Del_other by done. by destruct (Object_Get (v_o x) k).
  - intros p Hp. by rewrite lookup_insert_ne.
Qed.

Lemma fastdoc_remove_then_get_witness :
  let st := ParseBytes (text.json "{'foo':1,'bar':2}") heap0 in
  ∃ h', fastdoc_remove 3 "foo" st.2 = (Ok tt, h')
        ∧ fastdoc_get 3 "foo" h' = (Err (Errorf "missing key %v" [ArgStr "foo"]), h')
        ∧ (fastdoc_get 3 "bar" h').1 = Ok (Some 5%nat).
Proof.
  intros st.
  destruct (fastdoc_remove_then_get st.2 3
              (mkValue [("foo", 4%nat); ("bar", 5%nat)] [] EmptyString TypeObject)
              "foo" eq_refl) as (h' & Hrm & Hget & Hother & _).
  { simpl. apply NoDup_cons. split.
    - intros Hin. apply list_elem_of_singleton in Hin. discriminate.
    - apply NoDup_singleton. }
  exists h'. split; [exact Hrm|]. split; [exact Hget|].
  rewrite (Hother "bar") by discriminate. reflexivity.
Defined.

(** ** Arrays: [fastarray] *)

Lemma Atoi_Ok_not_dash (key : string) (idx : Z) :
  strconv.Atoi key = Ok idx → String.eqb key "-" = false.
Proof. intros Hkey. apply String.eqb_neq. intros ->. discriminate. Qed.

Lemma Atoi_range (key : string) (v : Z) :
  strconv.Atoi key = Ok v → strconv.MinInt ≤ v ≤ strconv.MaxInt.
Proof.
  unfold strconv.Atoi. destruct key as [|c rest]; [done|].
  destruct (if (_ || _)%bool then rest else _); [done|].
  destruct (strconv.digits _ _) as [n|]; [|done].
  destruct (_ && _)%bool eqn:E; [|done]. intros [= <-].
  apply andb_true_iff in E as [E1 E2]. lia.
Qed.

(** X8. The index tokens [getIndex] accepts: an accepted token denotes
    an index from 0 to [math.MaxInt]; the append sentinel [-] is not
    accepted; and the decimal writing of every such index is accepted
    and denotes it. *)
Theorem getIndex_tokens :
  (∀ key idx, getIndex key = Ok idx → 0 ≤ idx ≤ strconv.MaxInt)
  ∧ (∃ e, getIndex "-" = Err e)
  ∧ (∀ n, 0 ≤ n ≤ strconv.MaxInt → getIndex (strconv.Itoa n) = Ok n).
Proof.
  split; [|split].
  - intros key idx Hidx. apply getIndex_Ok in Hidx as [Hkey Hpos].
    apply Atoi_range in Hkey. lia.
  - by eexists.
  - intros n Hn. apply getIndex_Ok. split; [by apply strconv_facts.Atoi_Itoa|lia].
Qed.

Section array_cell.
Context (h : Heap) (arr : addr) (x : Value).
Hypothesis Harr : h !! arr = Some x.
Hypothesis Htype : v_t x = TypeArray.

Lemma fastarray_remove_in_range (key : string) (n : nat) :
  index_in key (length (v_a x)) = Some n →
  fastarray_remove arr key h
  = (Ok tt, <[arr := set_a x (take n (v_a x) ++ drop (S n) (v_a x))]> h).
Proof.
  intros Hn. unfold fastarray_remove. unfold_M.
  rewrite (update_Some _ _ _ x Harr). unfold Value_Del. by rewrite Htype, Hn.
Qed.

Lemma fastarray_get_cell (key : string) (a' : list ptr) (h' : Heap) :
  h' !! arr = Some (set_a x a') →
  fastarray_get arr key h'
  = (Ok (match index_in key (length a') with
         | Some n => mjoin (a' !! n)
         | None => None
         end), h').
Proof.
  intros Hh'. unfold fastarray_get, Get. unfold_M. simpl. rewrite Hh'. simpl.
  unfold Value_Get. simpl. by rewrite Htype.
Qed.
End array_cell.

(** X9. [add] with an index token up to the length inserts: the array
    is one longer, the value is at the index, the elements before it
    stay where they were and those from it on move up by one; no other
    cell changes. *)
Theorem fastarray_add_shifts_right (h : Heap) (arr : addr) (x : Value)
    (key : string) (idx : Z) (val : ptr) :
  h !! arr = Some x → v_t x = TypeArray →
  strconv.Atoi key = Ok idx → 0 ≤ idx ≤ Z.of_nat (length (v_a x)) →
  ∃ a',
    fastarray_add arr key val h = (Ok tt, <[arr := set_a x a']> h)
    ∧ length a' = S (length (v_a x))
    ∧ a' !! Z.to_nat idx = Some val
    ∧ (∀ j, (j < Z.to_nat idx)%nat → a' !! j = v_a x !! j)
    ∧ (∀ j, (Z.to_nat idx ≤ j)%nat → a' !! S j = v_a x !! j).
Proof.
  intros Harr Htype Hkey Hidx.
  exists (take (Z.to_nat idx) (v_a x) ++ val :: drop (Z.to_nat idx) (v_a x)).
  split; [|split; [|split; [|split]]].
  - apply (fastarray_add_index h arr x Harr Htype key idx val); [|done..].
    by eapply Atoi_Ok_not_dash.
  - rewrite length_app, length_take. simpl. rewrite length_drop. lia.
  - apply lookup_insert_at. lia.
  - intros j Hj. rewrite lookup_app_l by (rewrite length_take; lia).
    by rewrite lookup_take_lt.
  - intros j Hj. rewrite lookup_app_r; rewrite length_take, Nat.min_l by lia; [|lia].
    replace (S j - Z.to_nat idx)%nat with (S (j - Z.to_nat idx)) by lia.
    simpl. rewrite lookup_drop. f_equal. lia.
Qed.

Lemma fastarray_add_shifts_right_witness :
  let st := ParseBytes (text.json "['bar','baz']") heap0 in
  ∃ a', fastarray_add 3 "1" (Some valueTrue) st.2
        = (Ok tt, <[3%nat := mkValue [] a' EmptyString TypeArray]> st.2)
        ∧ a' !! 0%nat = Some (Some 4%nat)
        ∧ a' !! 1%nat = Some (Some valueTrue)
        ∧ a' !! 2%nat = Some (Some 5%nat).
Proof.
  intros st.
  destruct (fastarray_add_shifts_right st.2 3
              (mkValue [] [Some 4%nat; Some 5%nat] EmptyString TypeArray)
              "1" 1 (Some valueTrue) eq_refl eq_refl eq_refl)
    as (a' & Hadd & _ & Hat & Hbefore & Hafter).
  { simpl. lia. }
  exists a'. split; [exact Hadd|]. split; [|split].
  - etransitivity; [apply (Hbefore 0%nat); simpl; lia|reflexivity].
  - exact Hat.
  - etransitivity; [apply (Hafter 1%nat); simpl; lia|reflexivity].
Defined.

(** X10. [remove] with an index token inside the array deletes that
    element: the array is one shorter, the elements before the index
    stay where they were and those after it move down by one; no error
    is returned. *)
Theorem fastarray_remove_shifts_left (h : Heap) (arr : addr) (x : Value)
    (key : string) (idx : Z) :
  h !! arr = Some x → v_t x = TypeArray →
  strconv.Atoi key = Ok idx → 0 ≤ idx < Z.of_nat (length (v_a x)) →
  ∃ a',
    fastarray_remove arr key h = (Ok tt, <[arr := set_a x a']> h)
    ∧ S (length a') = length (v_a x)
    ∧ (∀ j, (j < Z.to_nat idx)%nat → a' !! j = v_a x !! j)
    ∧ (∀ j, (Z.to_nat idx ≤ j)%nat → a' !! j = v_a x !! S j).
Proof.
  intros Harr Htype Hkey Hidx.
  exists (take (Z.to_nat idx) (v_a x) ++ drop (S (Z.to_nat idx)) (v_a x)).
  split; [|split; [|split]].
  - apply fastarray_remove_in_range; [done..|]. by apply index_in_Some.
  - rewrite length_app, length_take, length_drop. lia.
  - intros j Hj. rewrite lookup_app_l by (rewrite length_take; lia).
    by rewrite lookup_take_lt.
  - intros j Hj. rewrite lookup_app_r; rewrite length_take, Nat.min_l by lia; [|lia].
    rewrite lookup_drop. f_equal. lia.
Qed.

Lemma fastarray_remove_shifts_left_witness :
  let st := ParseBytes (text.json "['bar','qux','baz']") heap0 in
  ∃ a', fastarray_remove 3 "1" st.2
        = (Ok tt, <[3%nat := mkValue [] a' EmptyString TypeArray]> st.2)
        ∧ a' !! 0%nat = Some (Some 4%nat)
        ∧ a' !! 1%nat = Some (Some 6%nat)
        ∧ length a' = 2%nat.
Proof.
  intros st.
  destruct (fastarray_remove_shifts_left st.2 3
              (mkValue [] [Some 4%nat; Some 5%nat; Some 6%nat] EmptyString TypeArray)
              "1" 1 eq_refl eq_refl eq_refl) as (a' & Hrm & Hlen & Hbefore & Hafter).
  { simpl. lia. }
  exists a'. split; [exact Hrm|]. split; [|split].
  - etransitivity; [apply (Hbefore 0%nat); simpl; lia|reflexivity].
  - etransitivity; [apply (Hafter 1%nat); simpl; lia|reflexivity].
  - simpl in Hlen. lia.
Defined.

(** X11. [set] with an index token inside the array, then [get]: [get]
    with the same token returns the value set, [get] with a token for
    another index answers as before, and the array keeps its length. *)
Theorem fastarray_set_then_get (h : Heap) (arr : addr) (x : Value)
    (key : string) (idx : Z) (val : ptr) :
  h !! arr = Some x → v_t x = TypeArray →
  strconv.Atoi key = Ok idx → 0 ≤ idx < Z.of_nat (length (v_a x)) →
  ∃ h' x',
    fastarray_set arr key val h = (Ok tt, h')
    ∧ h' !! arr = Some x' ∧ length (v_a x') = length (v_a x)
    ∧ fastarray_get arr key h' = (Ok val, h')
    ∧ (∀ k j, strconv.Atoi k = Ok j → j ≠ idx →
              (fastarray_get arr k h').1 = (fastarray_get arr k h).1).
Proof.
  intros Harr Htype Hkey Hidx.
  exists (<[arr := set_a x (<[Z.to_nat idx := val]> (v_a x))]> h),
         (set_a x (<[Z.to_nat idx := val]> (v_a x))).
  assert (Hcell : <[arr := set_a x (<[Z.to_nat idx := val]> (v_a x))]> h !! arr
                  = Some (set_a x (<[Z.to_nat idx := val]> (v_a x))))
    by apply lookup_insert_eq.
  split; [by apply fastarray_set_in_range|]. split; [done|].
  split; [apply length_insert|]. split.
  - rewrite (fastarray_get_cell arr x Htype key _ _ Hcell), length_insert.
    rewrite (index_in_Some key idx) by done.
    rewrite list_lookup_insert_eq by lia. done.
  - intros k j Hk Hj.
    rewrite (fastarray_get_cell arr x Htype k _ _ Hcell), length_insert.
    assert (Hsame : h !! arr = Some (set_a x (v_a x))) by (by destruct x).
    rewrite (fastarray_get_cell arr x Htype k _ _ Hsame). simpl.
    unfold index_in. rewrite Hk.
    destruct (_ || _)%bool eqn:E; [done|].
    apply orb_false_iff in E as [E1 E2].
    rewrite list_lookup_insert_ne; [done|]. lia.
Qed.

Lemma fastarray_set_then_get_witness :
  let st := ParseBytes (text.json "['bar','baz']") heap0 in
  ∃ h', fastarray_set 3 "1" (Some valueTrue) st.2 = (Ok tt, h')
        ∧ fastarray_get 3 "1" h' = (Ok (Some valueTrue), h')
        ∧ (fastarray_get 3 "0" h').1 = Ok (Some 4%nat).
Proof.
  intros st.
  destruct (fastarray_set_then_get st.2 3
              (mkValue [] [Some 4%nat; Some 5%nat] EmptyString TypeArray)
              "1" 1 (Some valueTrue) eq_refl eq_refl eq_refl)
    as (h' & x' & Hset & _ & _ & Hget & Hother).
  { simpl. lia. }
  exists h'. split; [exact Hset|]. split; [exact Hget|].
  rewrite (Hother "0" 0) by (reflexivity || lia). reflexivity.
Defined.

(** ** What an operation leaves behind *)

Lemma add_clean (c : container) (key : string) (val : ptr) (h : Heap) :
  clean (add c key val h) h.
Proof.
  destruct c as [d|arr]; [done|]. unfold clean. simpl. unfold fastarray_add.
  destruct (String.eqb key "-"); [done|]. unfold_M.
  by destruct (getIndex key).
Qed.

Lemma set_clean (c : container) (key : string) (val : ptr) (h : Heap) :
  clean (set c key val h) h.
Proof.
  destruct c as [d|arr]; [done|]. unfold clean. simpl. unfold fastarray_set. unfold_M.
  by destruct (getIndex key).
Qed.

Lemma intoFastType_heap (val : ptr) (h : Heap) : (intoFastType val h).2 = h.
Proof.
  unfold intoFastType. destruct val as [v|]; [|done]. unfold_M.
  destruct (h !! v) as [x|]; [|done]. by destruct (v_t x).
Qed.

Lemma Patch_add_clean (doc : option container) (op : Operation) (h : Heap) :
  clean (Patch_add doc op h) h.
Proof.
  unfold clean, Patch_add. unfold_M. rewrite Path_eq.
  destruct (getStringField h op "path") as [path|]; [|done].
  pose proof (findObject_heap doc path h) as Hh.
  destruct (findObject doc path h) as [[[[con|] key]|e|] h1]; simpl in *; subst h1; try done.
  pose proof (add_clean con key (value h op) h) as Hadd. unfold clean in Hadd.
  by destruct (add con key (value h op) h) as [[u|e|] h2]; simpl in *; subst.
Qed.

Lemma Patch_remove_clean (doc : option container) (op : Operation) (h : Heap) :
  clean (Patch_remove doc op h) h.
Proof.
  unfold clean, Patch_remove. unfold_M. rewrite Path_eq.
  destruct (getStringField h op "path") as [path|]; [|done].
  pose proof (findObject_heap doc path h) as Hh.
  destruct (findObject doc path h) as [[[[con|] key]|e|] h1]; simpl in *; subst h1; try done.
  pose proof (remove_Ok con key h) as Hrm.
  by destruct (remove con key h) as [[u|e|] h2]; simpl in *.
Qed.

Lemma Patch_replace_clean (doc : option container) (op : Operation) (h : Heap) :
  clean (Patch_replace doc op h) h.
Proof.
  unfold clean, Patch_replace. unfold_M. rewrite Path_eq.
  destruct (getStringField h op "path") as [path|]; [|done].
  destruct (String.eqb path EmptyString).
  { pose proof (intoFastType_heap (value h op) h) as Hh.
    by destruct (intoFastType (value h op) h) as [[c|e|] h1]; simpl in *; subst. }
  pose proof (findObject_heap doc path h) as Hh.
  destruct (findObject doc path h) as [[[[con|] key]|e|] h1]; simpl in *; subst h1; try done.
  pose proof (get_heap con key h) as Hg.
  destruct (get con key h) as [[v|e|] h2]; simpl in *; subst h2; try done.
  pose proof (set_clean con key (value h op) h) as Hset. unfold clean in Hset.
  by destruct (set con key (value h op) h) as [[u|e|] h2]; simpl in *; subst.
Qed.

Lemma Patch_move_clean (doc : option container) (op : Operation) (h : Heap) :
  clean (Patch_move doc op h) h.
Proof.
  unfold clean, Patch_move. unfold_M. rewrite From_eq.
  destruct (getStringField h op "from") as [from|]; [|done].
  pose proof (findObject_heap doc from h) as Hh.
  destruct (findObject doc from h) as [[[[con|] key]|e|] h1]; simpl in *; subst h1; try done.
  pose proof (get_heap con key h) as Hg.
  destruct (get con key h) as [[v|e|] h2]; simpl in *; subst h2; try done.
  rewrite Path_eq. destruct (getStringField h op "path") as [path|]; [|done].
  pose proof (findObject_heap doc path h) as Hh'.
  destruct (findObject doc path h) as [[[[con'|] key']|e|] h1]; simpl in *; subst h1; try done.
  pose proof (add_clean con' key' v h) as Hadd. unfold clean in Hadd.
  by destruct (add con' key' v h) as [[u|e|] h2]; simpl in *; subst.
Qed.

(** X12. An operation that does not succeed has written nothing: when
    a step of [ApplyFast] returns an error or panics, every cell is as
    it was before that step. *)
Theorem apply_op_failure_writes_nothing (pd : option container) (op : Operation)
    (h h' : Heap) (r : res (option container)) :
  apply_op pd op h = (r, h') →
  (∀ pd', r ≠ Ok pd') →
  h' = h.
Proof.
  intros Hop Hfail.
  assert (Hclean : clean (apply_op pd op h) h).
  { unfold apply_op. unfold_M.
    destruct (String.eqb (Kind h op) "add"); [apply Patch_add_clean|].
    destruct (String.eqb (Kind h op) "remove"); [apply Patch_remove_clean|].
    destruct (String.eqb (Kind h op) "replace"); [apply Patch_replace_clean|].
    destruct (String.eqb (Kind h op) "move"); [apply Patch_move_clean|].
    destruct (String.eqb (Kind h op) "test"); [done|].
    by destruct (String.eqb (Kind h op) "copy"). }
  unfold clean in Hclean. rewrite Hop in Hclean. simpl in Hclean.
  destruct r as [pd'| |]; [by destruct (Hfail pd')|done..].
Qed.

Lemma apply_op_failure_writes_nothing_witness :
  let st := parsed (text.json "{'a':[1]}")
                   (text.json "[{'op':'add','path':'/a/x','value':2}]") in
  st.1 = Ok (3%nat, [mkOperation 7])
  ∧ ∃ e, apply_op (Some (fastdoc 3)) (mkOperation 7) st.2 = (Err e, st.2).
Proof.
  intros st. split; [reflexivity|].
  destruct (apply_op (Some (fastdoc 3)) (mkOperation 7) st.2) as [r h'] eqn:Hop.
  assert (Hr : r = Err (Errorf "%w: executing add op for path: %s"
                          [ArgErr (Some (NumError "Atoi" "x" "invalid syntax")); ArgStr "/a/x"])).
  { change r with (r, h').1. rewrite <- Hop. reflexivity. }
  rewrite (apply_op_failure_writes_nothing _ _ _ _ _ Hop) by (rewrite Hr; discriminate).
  rewrite Hr. by eexists.
Defined.


(** ** The root container and the kinds of the cells *)

Lemma intoFastType_wt (val : ptr) (h h' : Heap) (c : container) :
  intoFastType val h = (Ok c, h') → val = Some (cell c) ∧ wt h c.
Proof.
  unfold intoFastType. destruct val as [v|]; [|done]. unfold_M.
  destruct (h !! v) as [x|] eqn:Hx; [|done].
  destruct (v_t x) eqn:Ht; try done; intros [= <- _]; (split; [done|]); by exists x.
Qed.

Lemma Patch_add_root (doc pd' : option container) (op : Operation) (h h' : Heap) :
  Patch_add doc op h = (Ok pd', h') → pd' = doc.
Proof.
  unfold Patch_add. unfold_M. rewrite Path_eq.
  destruct (getStringField h op "path") as [path|]; [|done].
  destruct (findObject doc path h) as [[[[con|] key]|e|] h1]; try done.
  destruct (add con key (value h1 op) h1) as [[u|e|] h2]; try done. by intros [= <- _].
Qed.

Lemma Patch_remove_root (doc pd' : option container) (op : Operation) (h h' : Heap) :
  Patch_remove doc op h = (Ok pd', h') → pd' = doc.
Proof.
  unfold Patch_remove. unfold_M. rewrite Path_eq.
  destruct (getStringField h op "path") as [path|]; [|done].
  destruct (findObject doc path h) as [[[[con|] key]|e|] h1]; try done.
  destruct (remove con key h1) as [[u|e|] h2]; try done. by intros [= <- _].
Qed.

Lemma Patch_move_root (doc pd' : option container) (op : Operation) (h h' : Heap) :
  Patch_move doc op h = (Ok pd', h') → pd' = doc.
Proof.
  unfold Patch_move. unfold_M. rewrite From_eq.
  destruct (getStringField h op "from") as [from|]; [|done].
  destruct (findObject doc from h) as [[[[con|] key]|e|] h1]; try done.
  destruct (get con key h1) as [[v|e|] h2]; try done.
  rewrite Path_eq. destruct (getStringField h2 op "path") as [path|]; [|done].
  destruct (findObject doc path h2) as [[[[con'|] key']|e|] h3]; try done.
  destruct (add con' key' v h3) as [[u|e|] h4]; try done. by intros [= <- _].
Qed.

Lemma Patch_replace_root (doc pd' : option container) (op : Operation) (h h' : Heap) :
  Patch_replace doc op h = (Ok pd', h') →
  pd' = doc
  ∨ (getStringField h op "path" = Some EmptyString ∧ h' = h
     ∧ ∃ c, pd' = Some c ∧ value h op = Some (cell c) ∧ wt h c).
Proof.
  unfold Patch_replace. unfold_M. rewrite Path_eq.
  destruct (getStringField h op "path") as [path|]; [|done].
  destruct (String.eqb_spec path EmptyString) as [->|Hpath].
  - pose proof (intoFastType_heap (value h op) h) as Hh.
    destruct (intoFastType (value h op) h) as [[c|e|] h1] eqn:E; simpl in *; subst h1;
      try done.
    intros [= <- <-]. right. split; [done|]. split; [done|].
    exists c. split; [done|]. by eapply intoFastType_wt.
  - destruct (findObject doc path h) as [[[[con|] key]|e|] h1]; try done.
    destruct (get con key h1) as [[v|e|] h2]; try done.
    destruct (set con key (value h2 op) h2) as [[u|e|] h3]; try done.
    intros [= <- _]. by left.
Qed.



Lemma SetArrayItem_type (x : Value) (idx : Z) (val : ptr) :
  v_t (Value_SetArrayItem x idx val) = v_t x.
Proof.
  unfold Value_SetArrayItem. destruct (v_t x) eqn:E; try done. by destruct (_ <=? _).
Qed.

Lemma InsertArrayItem_type (x : Value) (idx : Z) (val : ptr) :
  v_t (Value_InsertArrayItem x idx val) = v_t x.
Proof.
  unfold Value_InsertArrayItem. destruct (v_t x) eqn:E; try done. by destruct (_ <=? _).
Qed.

Lemma Del_type (x : Value) (key : string) : v_t (Value_Del x key) = v_t x.
Proof.
  unfold Value_Del. destruct (v_t x) eqn:E; try done. by destruct (index_in _ _).
Qed.

Lemma add_kinds (c : container) (key : string) (val : ptr) (h : Heap) (p : addr) :
  v_t <$> (add c key val h).2 !! p = v_t <$> h !! p.
Proof.
  destruct c as [d|arr]; simpl.
  - by apply lookup_update_type.
  - unfold fastarray_add. destruct (String.eqb key "-").
    + apply lookup_update_type. intros y. apply SetArrayItem_type.
    + unfold_M. destruct (getIndex key); try done. simpl.
      apply lookup_update_type. intros y. apply InsertArrayItem_type.
Qed.

Lemma set_kinds (c : container) (key : string) (val : ptr) (h : Heap) (p : addr) :
  v_t <$> (set c key val h).2 !! p = v_t <$> h !! p.
Proof.
  destruct c as [d|arr]; simpl.
  - by apply lookup_update_type.
  - unfold fastarray_set. unfold_M. destruct (getIndex key); try done. simpl.
    apply lookup_update_type. intros y. apply SetArrayItem_type.
Qed.

Lemma remove_kinds (c : container) (key : string) (h : Heap) (p : addr) :
  v_t <$> (remove c key h).2 !! p = v_t <$> h !! p.
Proof.
  destruct c as [d|arr]; simpl.
  - by apply lookup_update_type.
  - apply lookup_update_type. intros y. apply Del_type.
Qed.

Lemma Patch_add_kinds (doc : option container) (op : Operation) (h : Heap) (p : addr) :
  v_t <$> (Patch_add doc op h).2 !! p = v_t <$> h !! p.
Proof.
  unfold Patch_add. unfold_M. rewrite Path_eq.
  destruct (getStringField h op "path") as [path|]; [|done].
  pose proof (findObject_heap doc path h) as Hh.
  destruct (findObject doc path h) as [[[[con|] key]|e|] h1]; simpl in *; subst h1; try done.
  pose proof (add_kinds con key (value h op) h p) as Hadd.
  by destruct (add con key (value h op) h) as [[u|e|] h2].
Qed.

Lemma Patch_remove_kinds (doc : option container) (op : Operation) (h : Heap) (p : addr) :
  v_t <$> (Patch_remove doc op h).2 !! p = v_t <$> h !! p.
Proof.
  unfold Patch_remove. unfold_M. rewrite Path_eq.
  destruct (getStringField h op "path") as [path|]; [|done].
  pose proof (findObject_heap doc path h) as Hh.
  destruct (findObject doc path h) as [[[[con|] key]|e|] h1]; simpl in *; subst h1; try done.
  pose proof (remove_kinds con key h p) as Hrm.
  by destruct (remove con key h) as [[u|e|] h2].
Qed.

Lemma Patch_replace_kinds (doc : option container) (op : Operation) (h : Heap) (p : addr) :
  v_t <$> (Patch_replace doc op h).2 !! p = v_t <$> h !! p.
Proof.
  unfold Patch_replace. unfold_M. rewrite Path_eq.
  destruct (getStringField h op "path") as [path|]; [|done].
  destruct (String.eqb path EmptyString).
  { pose proof (intoFastType_heap (value h op) h) as Hh.
    by destruct (intoFastType (value h op) h) as [[c|e|] h1]; simpl in *; subst. }
  pose proof (findObject_heap doc path h) as Hh.
  destruct (findObject doc path h) as [[[[con|] key]|e|] h1]; simpl in *; subst h1; try done.
  pose proof (get_heap con key h) as Hg.
  destruct (get con key h) as [[v|e|] h2]; simpl in *; subst h2; try done.
  pose proof (set_kinds con key (value h op) h p) as Hset.
  by destruct (set con key (value h op) h) as [[u|e|] h2].
Qed.

Lemma Patch_move_kinds (doc : option container) (op : Operation) (h : Heap) (p : addr) :
  v_t <$> (Patch_move doc op h).2 !! p = v_t <$> h !! p.
Proof.
  unfold Patch_move. unfold_M. rewrite From_eq.
  destruct (getStringField h op "from") as [from|]; [|done].
  pose proof (findObject_heap doc from h) as Hh.
  destruct (findObject doc from h) as [[[[con|] key]|e|] h1]; simpl in *; subst h1; try done.
  pose proof (get_heap con key h) as Hg.
  destruct (get con key h) as [[v|e|] h2]; simpl in *; subst h2; try done.
  rewrite Path_eq. destruct (getStringField h op "path") as [path|]; [|done].
  pose proof (findObject_heap doc path h) as Hh'.
  destruct (findObject doc path h) as [[[[con'|] key']|e|] h1]; simpl in *; subst h1; try done.
  pose proof (add_kinds con' key' v h p) as Hadd.
  by destruct (add con' key' v h) as [[u|e|] h2].
Qed.

Lemma apply_op_kinds (pd : option container) (op : Operation) (h : Heap) (p : addr) :
  v_t <$> (apply_op pd op h).2 !! p = v_t <$> h !! p.
Proof.
  unfold apply_op. unfold_M.
  destruct (String.eqb (Kind h op) "add"); [apply Patch_add_kinds|].
  destruct (String.eqb (Kind h op) "remove"); [apply Patch_remove_kinds|].
  destruct (String.eqb (Kind h op) "replace"); [apply Patch_replace_kinds|].
  destruct (String.eqb (Kind h op) "move"); [apply Patch_move_kinds|].
  destruct (String.eqb (Kind h op) "test"); [done|].
  by destruct (String.eqb (Kind h op) "copy").
Qed.

Lemma wt_kinds (h h' : Heap) (c : container) :
  (∀ p, v_t <$> h' !! p = v_t <$> h !! p) → wt h c → wt h' c.
Proof.
  intros Hk (x & Hx & Ht). specialize (Hk (cell c)). rewrite Hx in Hk. simpl in Hk.
  destruct (h' !! cell c) as [x'|] eqn:Hx'; [|done]. exists x'. split; [done|].
  simpl in Hk. injection Hk as Hk. by rewrite Hk.
Qed.

Lemma apply_op_container_root (c : container) (pd' : option container)
    (op : Operation) (h h' : Heap) :
  wt h c → apply_op (Some c) op h = (Ok pd', h') → ∃ c', pd' = Some c' ∧ wt h c'.
Proof.
  intros Hwt. unfold apply_op. unfold_M.
  destruct (String.eqb (Kind h op) "add").
  { intros Hop. rewrite (Patch_add_root _ _ _ _ _ Hop). by exists c. }
  destruct (String.eqb (Kind h op) "remove").
  { intros Hop. rewrite (Patch_remove_root _ _ _ _ _ Hop). by exists c. }
  destruct (String.eqb (Kind h op) "replace").
  { intros Hop.
    destruct (Patch_replace_root _ _ _ _ _ Hop) as [->|(_ & _ & c' & -> & _ & Hc)];
      [by exists c|by exists c']. }
  destruct (String.eqb (Kind h op) "move").
  { intros Hop. rewrite (Patch_move_root _ _ _ _ _ Hop). by exists c. }
  destruct (String.eqb (Kind h op) "test"); [done|].
  by destruct (String.eqb (Kind h op) "copy").
Qed.

(** X15. What a patch never does to the cells.  Whatever operations
    are applied and however the patch ends, no cell is created or
    destroyed and no cell changes its kind (object, array, string, ...);
    and when the operations succeed from a root container that is an
    object or an array cell, they end with a root container, and it is
    an object or an array cell too. *)
Theorem apply_ops_keeps_kinds (p : Patch) :
  ∀ (pd : option container) (h : Heap),
    (∀ q, v_t <$> (apply_ops pd p h).2 !! q = v_t <$> h !! q)
    ∧ (∀ doc q, v_t <$> (ApplyFast p doc h).2 !! q = v_t <$> h !! q)
    ∧ (∀ c, pd = Some c → wt h c →
       ∀ pd', (apply_ops pd p h).1 = Ok pd' →
              ∃ c', pd' = Some c' ∧ wt (apply_ops pd p h).2 c').
Proof.
  induction p as [|op p IH]; intros pd h.
  - split; [done|]. split.
    + intros doc q. unfold ApplyFast. unfold_M. by destruct (h !! doc).
    + intros c -> Hwt pd' [= <-]. by exists c.
  - assert (Hkinds : ∀ pd0 q, v_t <$> (apply_ops pd0 (op :: p) h).2 !! q = v_t <$> h !! q).
    { intros pd0 q. cbn [apply_ops]. unfold_M.
      pose proof (apply_op_kinds pd0 op h q) as Hk.
      destruct (apply_op pd0 op h) as [[pd1|e|] h1]; simpl in Hk; [|done..].
      destruct (IH pd1 h1) as [Hk1 _]. by rewrite Hk1. }
    split; [apply Hkinds|]. split.
    + intros doc q. unfold ApplyFast. unfold_M. destruct (h !! doc) as [x|]; [|done].
      specialize (Hkinds (root_container doc (v_t x)) q).
      by destruct (apply_ops _ (op :: p) h) as [[pd1|e|] h1].
    + intros c -> Hwt. cbn [apply_ops]. unfold_M.
      pose proof (apply_op_kinds (Some c) op h) as Hk.
      pose proof (apply_op_container_root c) as Hroot.
      destruct (apply_op (Some c) op h) as [[pd1|e|] h1] eqn:Hop; simpl in Hk; [|done..].
      destruct (Hroot pd1 op h h1 Hwt Hop) as (c1 & -> & Hwt1).
      destruct (IH (Some c1) h1) as (_ & _ & Hend).
      apply (Hend c1 eq_refl). by eapply wt_kinds.
Qed.

(** ** Patching in place *)

(** X16. [ApplyFast] patches in place: when it succeeds, the pointer it
    returns is the pointer it was given, whatever the operations were;
    and it panics, before any operation, when that pointer is not a
    cell. *)
Theorem ApplyFast_in_place (p : Patch) (doc : addr) (h : Heap) :
  (∀ d, (ApplyFast p doc h).1 = Ok d → d = doc ∧ is_Some (h !! doc))
  ∧ (h !! doc = None → ApplyFast p doc h = (Panic, h)).
Proof.
  unfold ApplyFast. unfold_M. split.
  - intros d. destruct (h !! doc) as [x|]; [|done].
    destruct (apply_ops _ p h) as [[pd'| |] h']; simpl; [|done..].
    intros [= <-]. split; [done|by eexists].
  - by intros ->.
Qed.

(** ** Reading back what a handler wrote *)

(** What [set] at a key that is present does to the cell of the
    container. *)
Lemma set_present (h : Heap) (dc : container) (key : string) (v : addr) :
  wt h dc → present h dc key = true →
  ∃ f : Value → Value,
    set dc key (Some v) h = (Ok tt, update (cell dc) f h)
    ∧ (∀ x, v_t (f x) = v_t x)
    ∧ (∀ x, h !! cell dc = Some x →
            (v_o (f x)).*1 = (v_o x).*1 ∧ length (v_a (f x)) = length (v_a x))
    ∧ (∀ h', (f <$> h !! cell dc) = h' !! cell dc → (get dc key h').1 = Ok (Some v)).
Proof.
  intros (x & Hx & Ht) Hpresent. unfold present in Hpresent. rewrite Hx in Hpresent.
  destruct dc as [d|arr]; simpl in *.
  - apply bool_decide_eq_true in Hpresent as [w Hw].
    exists (λ x, set_o x (Object_Set (v_o x) key (Some v))).
    split; [done|]. split; [done|]. split; [|].
    + intros y Hy. rewrite Hx in Hy. injection Hy as <-. simpl. split; [|done].
      unfold Object_Set. rewrite Object_set_keys.
      rewrite bool_decide_eq_true_2; [done|].
      clear -Hw. induction (v_o x) as [|[k0 w0] o IH]; simpl in *; [done|].
      destruct (String.eqb_spec k0 key) as [->|_];
        [apply list_elem_of_here|apply list_elem_of_further; by apply IH].
    + intros h' Hh'. rewrite Hx in Hh'. simpl in Hh'.
      unfold fastdoc_get. unfold_M. rewrite <- Hh'. simpl.
      unfold Object_Set. simpl. by rewrite Object_Get_set_eq.
  - apply bool_decide_eq_true in Hpresent as [n Hn].
    unfold index_in in Hn. destruct (strconv.Atoi key) as [idx| |] eqn:Hkey; [|done..].
    destruct (_ || _)%bool eqn:E; [done|]. apply orb_false_iff in E as [E1 E2].
    assert (Hidx : 0 ≤ idx < Z.of_nat (length (v_a x))) by lia.
    exists (λ x, Value_SetArrayItem x idx (Some v)).
    split; [|split; [|split]].
    + unfold fastarray_set. unfold_M.
      assert (getIndex key = Ok idx) as -> by (apply getIndex_Ok; split; [done|lia]).
      done.
    + intros y. apply SetArrayItem_type.
    + intros y Hy. rewrite Hx in Hy. injection Hy as <-.
      unfold Value_SetArrayItem. rewrite Ht.
      destruct (Z.leb_spec (Z.of_nat (length (v_a x))) idx); [lia|]. simpl.
      by rewrite length_insert.
    + intros h' Hh'. rewrite Hx in Hh'. simpl in Hh'.
      unfold fastarray_get, Get. unfold_M. simpl. rewrite <- Hh'. simpl.
      unfold Value_Get, Value_SetArrayItem. rewrite Ht.
      destruct (Z.leb_spec (Z.of_nat (length (v_a x))) idx); [lia|]. simpl. rewrite Ht.
      rewrite length_insert, (index_in_Some key idx) by done.
      by rewrite list_lookup_insert_eq by lia.
Qed.

(** X17. [add], then reading its path.  On a store laid out as the
    parser leaves it, an [add] whose path resolves to a parent and
    whose final token is a member name of an object, or an index up to
    the length of an array, succeeds, and resolving the same path
    afterwards and reading it gives the value of the operation. *)
Theorem Patch_add_then_read (h : Heap) (doc : option container) (op : Operation)
    (path : string) (dc : container) (key : string) (v : addr) :
  laid_out h → wt_root h doc →
  getStringField h op "path" = Some path →
  value h op = Some v →
  (findObject doc path h).1 = Ok (Some dc, key) →
  insertable h dc key →
  ∃ h', Patch_add doc op h = (Ok doc, h')
        ∧ (at_pointer doc path h').1 = Ok (Some v).
Proof.
  intros Hlaid Hwt Hpath Hval Hdst Hins.
  pose proof (laid_out_not_read h doc path dc key Hlaid Hdst) as Hreads.
  pose proof (findObject_heap doc path h) as Hh.
  assert (Hwtd : wt h dc).
  { destruct (findObject doc path h) as [r h0] eqn:E. simpl in *. subst.
    by eapply findObject_wt. }
  destruct (add_insertable h dc key v Hwtd Hins) as (f & Hadd & Hft & _ & _ & Hfget).
  exists (update (cell dc) f h). split.
  - unfold Patch_add. unfold_M. rewrite Path_eq, Hpath.
    destruct (findObject doc path h) as [r1 h1]. simpl in *. subst r1 h1.
    by rewrite Hval, Hadd.
  - unfold at_pointer. unfold_M.
    pose proof (findObject_update (cell dc) f doc path h Hft Hreads) as Hsame.
    pose proof (findObject_heap doc path (update (cell dc) f h)) as Hh'.
    destruct (findObject doc path (update (cell dc) f h)) as [r h0].
    simpl in *. subst h0. rewrite Hsame, Hdst.
    apply Hfget. unfold update. by rewrite lookup_alter_eq.
Qed.

Lemma Patch_add_then_read_witness :
  let st := parsed (text.json "{'foo':['bar','baz']}")
                   (text.json "[{'op':'add','path':'/foo/1','value':'qux'}]") in
  st.1 = Ok (3%nat, [mkOperation 8])
  ∧ ∃ h', Patch_add (Some (fastdoc 3)) (mkOperation 8) st.2 = (Ok (Some (fastdoc 3)), h')
          ∧ (at_pointer (Some (fastdoc 3)) "/foo/1" h').1 = Ok (Some 11%nat)
          ∧ MarshalTo (depth h') h' 3 = Some (text.json "{'foo':['bar','qux','baz']}").
Proof.
  intros st. split; [reflexivity|].
  destruct (Patch_add_then_read st.2 (Some (fastdoc 3)) (mkOperation 8) "/foo/1"
              (fastarray 4) "1" 11%nat) as (h' & Hadd & Hread).
  - eapply parsed_laid_out. subst st. apply surjective_pairing.
  - eexists. split; reflexivity.
  - reflexivity.
  - reflexivity.
  - reflexivity.
  - eexists _, 1. split; [reflexivity|]. split; [reflexivity|]. simpl. lia.
  - exists h'. split; [exact Hadd|]. split; [exact Hread|].
    change h' with (Ok (Some (fastdoc 3)), h').2. rewrite <- Hadd. reflexivity.
Defined.

(** X18. [replace], then reading its path.  On a store laid out as the
    parser leaves it, a [replace] whose path resolves to a parent in
    which the final key is present (a member of the object, an index
    inside the array) succeeds; reading the same path afterwards gives
    the value of the operation; and the parent has the members, or the
    number of elements, it had: nothing is created. *)
Theorem Patch_replace_then_read (h : Heap) (doc : option container) (op : Operation)
    (path : string) (dc : container) (key : string) (v : addr) (x : Value) :
  laid_out h → wt_root h doc →
  getStringField h op "path" = Some path →
  path ≠ EmptyString →
  value h op = Some v →
  (findObject doc path h).1 = Ok (Some dc, key) →
  present h dc key = true →
  h !! cell dc = Some x →
  ∃ h' x',
    Patch_replace doc op h = (Ok doc, h')
    ∧ (at_pointer doc path h').1 = Ok (Some v)
    ∧ h' !! cell dc = Some x'
    ∧ (v_o x').*1 = (v_o x).*1 ∧ length (v_a x') = length (v_a x).
Proof.
  intros Hlaid Hwt Hpath Hne Hval Hdst Hpresent Hx.
  pose proof (laid_out_not_read h doc path dc key Hlaid Hdst) as Hreads.
  pose proof (findObject_heap doc path h) as Hh.
  assert (Hwtd : wt h dc).
  { destruct (findObject doc path h) as [r h0] eqn:E. simpl in *. subst.
    by eapply findObject_wt. }
  destruct (set_present h dc key v Hwtd Hpresent) as (f & Hset & Hft & Hsame & Hfget).
  exists (update (cell dc) f h), (f x). split; [|split; [|split]].
  - unfold Patch_replace. unfold_M. rewrite Path_eq, Hpath.
    apply String.eqb_neq in Hne. rewrite Hne.
    destruct (findObject doc path h) as [r1 h1]. simpl in *. subst r1 h1.
    pose proof (get_heap dc key h) as Hg.
    assert (Hget : ∃ w, (get dc key h).1 = Ok w).
    { unfold present in Hpresent. rewrite Hx in Hpresent.
      destruct dc as [d|arr]; simpl in *.
      - unfold fastdoc_get. unfold_M. rewrite Hx.
        apply bool_decide_eq_true in Hpresent as [w Hw]. rewrite Hw. by eexists.
      - by eexists. }
    destruct Hget as [w Hw].
    destruct (get dc key h) as [r2 h2]. simpl in *. subst r2 h2.
    by rewrite Hval, Hset.
  - unfold at_pointer. unfold_M.
    pose proof (findObject_update (cell dc) f doc path h Hft Hreads) as Hsm.
    pose proof (findObject_heap doc path (update (cell dc) f h)) as Hh'.
    destruct (findObject doc path (update (cell dc) f h)) as [r h0].
    simpl in *. subst h0. rewrite Hsm, Hdst.
    apply Hfget. unfold update. by rewrite lookup_alter_eq.
  - unfold update. by rewrite lookup_alter_eq, Hx.
  - by apply Hsame.
Qed.

Lemma Patch_replace_then_read_witness :
  let st := parsed (text.json "{'foo':'bar','n':1}")
                   (text.json "[{'op':'replace','path':'/foo','value':'qux'}]") in
  st.1 = Ok (3%nat, [mkOperation 7])
  ∧ ∃ h', Patch_replace (Some (fastdoc 3)) (mkOperation 7) st.2 = (Ok (Some (fastdoc 3)), h')
          ∧ (at_pointer (Some (fastdoc 3)) "/foo" h').1 = Ok (Some 10%nat)
          ∧ MarshalTo (depth h') h' 3 = Some (text.json "{'foo':'qux','n':1}").
Proof.
  intros st. split; [reflexivity|].
  destruct (Patch_replace_then_read st.2 (Some (fastdoc 3)) (mkOperation 7) "/foo"
              (fastdoc 3) "foo" 10%nat
              (mkValue [("foo", 4%nat); ("n", 5%nat)] [] EmptyString TypeObject))
    as (h' & x' & Hrep & Hread & _).
  - eapply parsed_laid_out. subst st. apply surjective_pairing.
  - eexists. split; reflexivity.
  - reflexivity.
  - discriminate.
  - reflexivity.
  - reflexivity.
  - reflexivity.
  - reflexivity.
  - exists h'. split; [exact Hrep|]. split; [exact Hread|].
    change h' with (Ok (Some (fastdoc 3)), h').2. rewrite <- Hrep. reflexivity.
Defined.

(** ** Resolution, one token at a time *)

Lemma Split_snoc (p t : string) (sep : ascii) :
  contains_char sep t = false →
  strings.Split (p +:+ String sep t) sep = strings.Split p sep ++ [t].
Proof.
  intros Ht. induction p as [|c p IH].
  - change (strings.Split (String sep t) sep = [EmptyString] ++ [t]).
    by rewrite Split_sep_head, Split_no_sep.
  - change (strings.Split (String c (p +:+ String sep t)) sep
            = strings.Split (String c p) sep ++ [t]).
    simpl. destruct (Ascii.eqb c sep); [by rewrite IH|].
    rewrite IH. pose proof (Split_nonempty p sep) as Hne.
    by destruct (strings.Split p sep).
Qed.

Lemma Split_length (p : string) (sep : ascii) :
  contains_char sep p = true → (2 ≤ length (strings.Split p sep))%nat.
Proof.
  induction p as [|c p IH]; simpl; [done|].
  pose proof (Split_nonempty p sep) as Hne.
  destruct (Ascii.eqb c sep); simpl.
  - intros _. destruct (strings.Split p sep); [done|simpl; lia].
  - intros Hp. specialize (IH Hp). destruct (strings.Split p sep); simpl in *; lia.
Qed.

(** One more token after [parts]: the walk of [parts], then one step
    from where it ends. *)
Lemma findObject_loop_snoc (parts : list string) :
  ∀ (c0 : container) (part t : string) (h : Heap),
    findObject_loop (Some c0) (parts ++ [part]) t h =
    match (findObject_loop (Some c0) parts part h).1 with
    | Ok (Some c, key) =>
        match (get c key h).1 with
        | Ok (Some next) =>
            match v_t <$> h !! next with
            | Some TypeArray => (Ok (Some (fastarray next), decodePatchKey t), h)
            | Some TypeObject => (Ok (Some (fastdoc next), decodePatchKey t), h)
            | Some _ => (Ok (None, EmptyString), h)
            | None => (Panic, h)
            end
        | Panic => (Panic, h)
        | _ => (Ok (None, EmptyString), h)
        end
    | Panic => (Panic, h)
    | _ => (Ok (None, EmptyString), h)
    end.
Proof.
  induction parts as [|part0 parts IH]; intros c0 part t h.
  - cbn [app findObject_loop]. unfold_M. cbn [fst].
    pose proof (get_heap c0 (decodePatchKey part) h) as Hg.
    destruct (get c0 _ h) as [[[next|]|e|] h1]; simpl in Hg; subst h1; cbn [fst]; try done.
    destruct (h !! next) as [x|]; [|done]. simpl. by destruct (v_t x).
  - change ((part0 :: parts) ++ [part]) with (part0 :: (parts ++ [part])).
    cbn [findObject_loop]. unfold_M.
    pose proof (get_heap c0 (decodePatchKey part0) h) as Hg.
    destruct (get c0 _ h) as [[[next|]|e|] h1]; simpl in Hg; subst h1; cbn [fst]; try done.
    destruct (h !! next) as [x|]; [|done].
    destruct (v_t x); try done; apply IH.
Qed.

(** X19. Pointers resolve one token at a time.  For a pointer [p] with
    a [/] in it and a token [t], the container that [p/t] resolves to
    is the value that [p] reads: an object or an array found at [p] is
    the parent, with [t] decoded as the final key; when [p] reads
    nothing, fails, or reads a string, a number or a literal, [p/t]
    resolves to no container; the store is not written. *)
Theorem findObject_descends (root : container) (p t : string) (h : Heap) :
  contains_char "/" t = false →
  contains_char "/" p = true →
  findObject (Some root) (p +:+ String "/" t) h =
  match (at_pointer (Some root) p h).1 with
  | Ok (Some next) =>
      match v_t <$> h !! next with
      | Some TypeArray => (Ok (Some (fastarray next), decodePatchKey t), h)
      | Some TypeObject => (Ok (Some (fastdoc next), decodePatchKey t), h)
      | Some _ => (Ok (None, EmptyString), h)
      | None => (Panic, h)
      end
  | Panic => (Panic, h)
  | _ => (Ok (None, EmptyString), h)
  end.
Proof.
  intros Ht Hp. unfold at_pointer, findObject.
  rewrite (Split_snoc p t "/" Ht). pose proof (Split_length p "/" Hp) as Hlen.
  destruct (strings.Split p "/") as [|s0 rest]; [simpl in Hlen; lia|].
  destruct (exists_last (l := rest)) as (mid & l & ->);
    [intros ->; simpl in Hlen; lia|].
  clear Hlen.
  assert (Hlt1 : (length (s0 :: mid ++ [l]) <? 2)%nat = false).
  { apply Nat.ltb_ge. simpl. rewrite length_app. simpl. lia. }
  assert (Hlt2 : (length ((s0 :: mid ++ [l]) ++ [t]) <? 2)%nat = false).
  { apply Nat.ltb_ge. simpl. rewrite !length_app. simpl. lia. }
  rewrite Hlt1, Hlt2.
  assert (Hparts1 : take (length (s0 :: mid ++ [l]) - 2) (drop 1 (s0 :: mid ++ [l])) = mid).
  { change (drop 1 (s0 :: mid ++ [l])) with (mid ++ [l]).
    replace (length (s0 :: mid ++ [l]) - 2)%nat with (length mid)
      by (simpl; rewrite length_app; simpl; lia).
    apply take_app_length. }
  assert (Hparts2 : take (length ((s0 :: mid ++ [l]) ++ [t]) - 2)
                      (drop 1 ((s0 :: mid ++ [l]) ++ [t])) = mid ++ [l]).
  { change (drop 1 ((s0 :: mid ++ [l]) ++ [t])) with ((mid ++ [l]) ++ [t]).
    replace (length ((s0 :: mid ++ [l]) ++ [t]) - 2)%nat with (length (mid ++ [l]))
      by (simpl; rewrite !length_app; simpl; lia).
    apply take_app_length. }
  rewrite Hparts1, Hparts2.
  assert (Hlast1 : List.last (s0 :: mid ++ [l]) EmptyString = l).
  { change (s0 :: mid ++ [l]) with ((s0 :: mid) ++ [l]). apply last_last. }
  assert (Hlast2 : List.last ((s0 :: mid ++ [l]) ++ [t]) EmptyString = t)
    by apply last_last.
  rewrite Hlast1, Hlast2, findObject_loop_snoc.
  unfold_M.
  pose proof (findObject_loop_heap mid (Some root) l h) as Hh.
  destruct (findObject_loop (Some root) mid l h) as [[[[c|] key]|e|] h1];
    simpl in Hh; subst h1; cbn [fst]; try done.
Qed.

Lemma findObject_descends_witness :
  let st := parsed (text.json "{'a':{'b':[1,2]},'s':'x'}") (text.json "[]") in
  st.1 = Ok (3%nat, [])
  ∧ findObject (Some (fastdoc 3)) "/a/b/1" st.2 = (Ok (Some (fastarray 5), "1"), st.2)
  ∧ findObject (Some (fastdoc 3)) "/s/1" st.2 = (Ok (None, EmptyString), st.2).
Proof.
  intros st. split; [reflexivity|]. split.
  - etransitivity; [apply (findObject_descends (fastdoc 3) "/a/b" "1"); reflexivity|].
    reflexivity.
  - etransitivity; [apply (findObject_descends (fastdoc 3) "/s" "1"); reflexivity|].
    reflexivity.
Defined.

(** ** Decoding a patch *)

Lemma DecodePatch_loop_Ok (patchOps : list ptr) (h : Heap) :
  ∀ p, (DecodePatch_loop patchOps h).1 = Ok p ↔
       (Some ∘ op_v) <$> p = patchOps
       ∧ Forall (λ o, ∃ y, h !! op_v o = Some y ∧ v_t y = TypeObject) p.
Proof.
  induction patchOps as [|[patchOp|] patchOps IH]; intros p.
  - simpl. split.
    + intros [= <-]. done.
    + intros [Hp _]. by destruct p.
  - cbn [DecodePatch_loop]. unfold_M.
    pose proof (DecodePatch_loop_heap patchOps h) as Hh.
    split.
    + destruct (h !! patchOp) as [x|] eqn:Hx; [|done].
      destruct (decide _) as [Ht|Ht]; [|done].
      destruct (DecodePatch_loop patchOps h) as [[p'|e|] h1] eqn:E; simpl in *; [|done..].
      intros [= <-]. destruct (proj1 (IH p') eq_refl) as [Hp' Hall]. split.
      * rewrite fmap_cons. by f_equal.
      * apply Forall_cons. split; [by exists x|done].
    + intros [Hp Hall]. destruct p as [|[a] p']; [done|].
      simpl in Hp. injection Hp as -> Hp.
      apply Forall_cons in Hall as [(y & Hy & Hty) Hall]. simpl in Hy.
      rewrite Hy. destruct (decide _) as [Ht|Ht]; [|done].
      pose proof (proj2 (IH p') (conj Hp Hall)) as Hrec.
      destruct (DecodePatch_loop patchOps h) as [[p''|e|] h1]; simpl in *; [|done..].
      by injection Hrec as ->.
  - simpl. split; [done|]. intros [Hp _]. by destruct p.
Qed.

(** X20. What [DecodePatch] accepts.  Decoding succeeds exactly when
    the text parses to an array cell all of whose elements are object
    cells, and the patch is then those cells, one operation for each
    element, in the order of the array; the store is the one the parser
    left.  A text that parses to anything but an array is an error. *)
Theorem DecodePatch_operations (buf : string) (h h' : Heap) :
  (∀ p, DecodePatch buf h = (Ok p, h') ↔
        ∃ a x, ParseBytes buf h = (Ok a, h') ∧ h' !! a = Some x
               ∧ v_t x = TypeArray
               ∧ (Some ∘ op_v) <$> p = v_a x
               ∧ Forall (λ o, ∃ y, h' !! op_v o = Some y ∧ v_t y = TypeObject) p)
  ∧ (∀ a x, ParseBytes buf h = (Ok a, h') → h' !! a = Some x →
            v_t x ≠ TypeArray →
            DecodePatch buf h = (Err (Errorf "unexpected patch type: %s" []), h')).
Proof.
  split.
  - intros p. unfold DecodePatch. unfold_M. split.
    + destruct (ParseBytes buf h) as [[a|e|] h1]; [|done..].
      destruct (h1 !! a) as [x|] eqn:Hx; [|done].
      destruct (decide _) as [Ht|Ht]; [|done].
      intros Hloop. pose proof (DecodePatch_loop_heap (v_a x) h1) as Hh.
      rewrite Hloop in Hh. simpl in Hh. subst h'.
      exists a, x. split; [done|]. split; [done|]. split; [done|].
      apply DecodePatch_loop_Ok. by rewrite Hloop.
    + intros (a & x & -> & Hx & Ht & Hp). rewrite Hx.
      destruct (decide _) as [_|Hn]; [|done].
      apply DecodePatch_loop_Ok in Hp.
      pose proof (DecodePatch_loop_heap (v_a x) h') as Hh.
      destruct (DecodePatch_loop (v_a x) h') as [r h1]. simpl in *. by subst.
  - intros a x Hparse Hx Ht. unfold DecodePatch. unfold_M.
    rewrite Hparse, Hx. by destruct (decide _).
Qed.
